(** * prompt-api-types: the declared shapes and their structural validation

    The package [src/prompt-api.ts] contains declarations only.  Each
    declaration is transcribed below as a type descriptor, field by field in
    source order, and given its meaning by a structural conformance check
    of JavaScript values against descriptors. *)

From stdpp Require Import base option list strings gmap.
From Stdlib Require Import ZArith.

Open Scope string_scope.
Set Warnings "-register-all,-clear-no-such-hyp".

(** ** JavaScript values *)

(** A value crossing the API boundary.  No declaration of the package
    inspects the magnitude of a number, so a number carries an integer.
    An object carries the name of the constructor that made it (["Object"]
    for an object literal) and its own properties.  A promise is given by
    the value it fulfils with, an async iterable by the chunks it yields. *)
Inductive JSVal : Type :=
  | VUndef
  | VNull
  | VBool (b : bool)
  | VNum (n : Z)
  | VStr (s : string)
  | VArr (items : list JSVal)
  | VObj (ctor : string) (props : gmap string JSVal)
  | VFun
  | VPromise (settled : JSVal)
  | VAsyncIter (chunks : list JSVal).

(** An object literal [{ k1: v1, ..., kn: vn }] with distinct keys. *)
Definition obj (kvs : list (string * JSVal)) : JSVal :=
  VObj "Object" (list_to_map kvs).

(** Reading a property, as JavaScript does: an absent property of an
    object reads as [undefined]; reading from [undefined] or [null] throws
    a [TypeError], here [None]; the other values have no properties of
    their own. *)
Definition get (v : JSVal) (k : string) : option JSVal :=
  match v with
  | VObj _ m => Some (default VUndef (m !! k))
  | VUndef | VNull => None
  | _ => Some VUndef
  end.

Definition is_undef (v : JSVal) : bool :=
  match v with VUndef => true | _ => false end.

(** ** Type descriptors *)

(** The fragment of TypeScript's type language that the package uses.
    A property or a parameter is [(name, optional, type)]: [optional] is
    the [?] after the name. *)
Inductive ty : Type :=
  | TAny
  | TString
  | TNumber
  | TBoolean
  | TUndefined
  | TVoid
  | TLit (s : string)
  | THost (iface : string)
  | TArray (elem : ty)
  | TUnion (alts : list ty)
  | TInter (parts : list ty)
  | TObject (members : list (string * bool * ty)) (index : option ty)
  | TFun (params : list (string * bool * ty)) (ret : ty)
  | TPromise (result : ty)
  | TAsyncIterable (chunk : ty).

Definition member := (string * bool * ty)%type.
Definition mname (p : member) : string := p.1.1.
Definition moptional (p : member) : bool := p.1.2.
Definition mtype (p : member) : ty := p.2.

(** [interface { ... }] without an index signature. *)
Definition TInterface (members : list member) : ty := TObject members None.

(** ** Structural conformance *)

Section Conformance.

(** The host platform's interfaces ([Blob], [DOMException], ...) are
    declared by the browser's library, not by this package.
    [implements c i] says that objects made by constructor [c] are
    instances of platform interface [i]. *)
Variable implements : string → string → bool.

Fixpoint conforms (t : ty) (v : JSVal) {struct t} : bool :=
  match t with
  | TAny => true
  | TString => match v with VStr _ => true | _ => false end
  | TNumber => match v with VNum _ => true | _ => false end
  | TBoolean => match v with VBool _ => true | _ => false end
  | TUndefined => is_undef v
  | TVoid => is_undef v
  | TLit s => match v with VStr s' => bool_decide (s' = s) | _ => false end
  | THost i => match v with VObj c _ => implements c i | _ => false end
  | TArray e => match v with VArr l => forallb (conforms e) l | _ => false end
  | TUnion alts =>
      (fix any (ts : list ty) : bool :=
         match ts with
         | [] => false
         | t' :: ts' => conforms t' v || any ts'
         end) alts
  | TInter parts =>
      (fix all (ts : list ty) : bool :=
         match ts with
         | [] => true
         | t' :: ts' => conforms t' v && all ts'
         end) parts
  | TObject members index =>
      match v with
      | VObj _ m =>
          (fix fields (ps : list (string * bool * ty)) : bool :=
             match ps with
             | [] => true
             | (k, opt, t') :: ps' =>
                 match m !! k with
                 | None => opt
                 | Some x => conforms t' x || (opt && is_undef x)
                 end && fields ps'
             end) members
          && match index with
             | None => true
             | Some ti => forallb (conforms ti) (map snd (map_to_list m))
             end
      | _ => false
      end
  | TFun _ _ => match v with VFun => true | _ => false end
  | TPromise r => match v with VPromise x => conforms r x | _ => false end
  | TAsyncIterable c =>
      match v with VAsyncIter l => forallb (conforms c) l | _ => false end
  end.

(** One property against one member declaration. *)
Definition field_ok (m : gmap string JSVal) (p : member) : bool :=
  match m !! mname p with
  | None => moptional p
  | Some x => conforms (mtype p) x || (moptional p && is_undef x)
  end.

(** What [field_ok] asks of an optional member of type [t] named [k]. *)
Definition optional_member (m : gmap string JSVal) (k : string) (t : ty) : Prop :=
  m !! k = None ∨ ∃ x, m !! k = Some x ∧ (x = VUndef ∨ conforms t x = true).

(** An argument list against a parameter list: arguments are matched
    left to right, a missing or [undefined] argument is allowed only for
    an optional parameter, and surplus arguments are rejected. *)
Fixpoint accepts_args (ps : list member) (args : list JSVal) : bool :=
  match ps, args with
  | [], [] => true
  | [], _ :: _ => false
  | p :: ps', [] => moptional p && accepts_args ps' []
  | p :: ps', a :: args' =>
      (conforms (mtype p) a || (moptional p && is_undef a))
      && accepts_args ps' args'
  end.

Definition accepts_call (f : ty) (args : list JSVal) : bool :=
  match f with
  | TFun ps _ => accepts_args ps args
  | _ => false
  end.

End Conformance.

(** The declaration of member [k] in an object type. *)
Definition lookup_member (t : ty) (k : string) : option member :=
  match t with
  | TObject ms _ => find (λ p, bool_decide (mname p = k)) ms
  | _ => None
  end.

(** The type of member [k], [TUndefined] when there is none. *)
Definition member_type (t : ty) (k : string) : ty :=
  from_option mtype TUndefined (lookup_member t k).

Definition result_type (f : ty) : ty :=
  match f with TFun _ r => r | _ => TUndefined end.

(** ** The weak-type check *)

(** An object type is weak when it has at least one member, every member
    is optional and there is no index signature.  Member by member every
    object conforms to such a type unless it gives a declared member a
    wrong value; the compiler therefore also refuses, for a weak type, a
    value that has properties but none of the declared ones. *)
Definition weak_type (t : ty) : bool :=
  match t with
  | TObject (p :: ms) None => forallb moptional (p :: ms)
  | _ => false
  end.

Definition has_no_property (v : JSVal) : bool :=
  match v with
  | VObj _ m => bool_decide (size m = 0)
  | _ => false
  end.

Definition shares_member (t : ty) (v : JSVal) : bool :=
  match t, v with
  | TObject ms _, VObj _ m =>
      existsb (λ p, bool_decide (is_Some (m !! mname p))) ms
  | _, _ => false
  end.

(** Conformance together with the weak-type check. *)
Definition valid (implements : string → string → bool) (t : ty) (v : JSVal) : bool :=
  conforms implements t v
  && (negb (weak_type t) || has_no_property v || shares_member t v).

(** [accepts_args] and [accepts_call] with each argument checked by
    [valid]. *)
Fixpoint takes_args (implements : string → string → bool)
    (ps : list member) (args : list JSVal) : bool :=
  match ps, args with
  | [], [] => true
  | [], _ :: _ => false
  | p :: ps', [] => moptional p && takes_args implements ps' []
  | p :: ps', a :: args' =>
      (valid implements (mtype p) a || (moptional p && is_undef a))
      && takes_args implements ps' args'
  end.

Definition takes_call (implements : string → string → bool)
    (f : ty) (args : list JSVal) : bool :=
  match f with
  | TFun ps _ => takes_args implements ps args
  | _ => false
  end.

(** ** The declarations of [src/prompt-api.ts], in source order *)

(** [interface LanguageModelOptions] *)
Definition LanguageModelOptions : ty :=
  TInterface
    [ ("model", true, TString);
      ("temperature", true, TNumber);
      ("maxTokens", true, TNumber);
      ("topP", true, TNumber);
      ("stream", true, TBoolean);
      ("signal", true, THost "AbortSignal") ].

(** [type PromptMessageContent]: three object types, told apart by the
    string literal in [type]. *)
Definition PromptMessageContent : ty :=
  TUnion
    [ TInterface
        [ ("type", false, TLit "text");
          ("value", false, TString) ];
      TInterface
        [ ("type", false, TLit "image");
          ("value", false,
            TUnion
              [ THost "Blob";
                THost "ImageData";
                THost "ImageBitmap";
                THost "VideoFrame";
                THost "OffscreenCanvas";
                THost "HTMLImageElement";
                THost "SVGImageElement";
                THost "HTMLCanvasElement";
                THost "HTMLVideoElement";
                THost "BufferSource";
                THost "ArrayBuffer" ]) ];
      TInterface
        [ ("type", false, TLit "audio");
          ("value", false,
            TUnion [ THost "Blob"; THost "AudioBuffer"; THost "BufferSource" ]) ] ].

(** [interface PromptResponseConstraintProperty], with its index
    signature [[key: string]: any]. *)
Definition PromptResponseConstraintProperty : ty :=
  TObject
    [ ("type", false, TString);
      ("description", true, TString) ]
    (Some TAny).

(** [interface PromptResponseConstraint] *)
Definition PromptResponseConstraint : ty :=
  TInterface
    [ ("type", false, TString);
      ("required", false, TArray TString);
      ("additionalProperties", false, TBoolean);
      ("properties", false, TObject [] (Some PromptResponseConstraintProperty)) ].

(** [interface PromptPayloadOptions] *)
Definition PromptPayloadOptions : ty :=
  TInterface
    [ ("responseConstraint", false, PromptResponseConstraint);
      ("omitResponseConstraintInput", false, TBoolean) ].

(** [interface ExpandedPromptPayload] *)
Definition ExpandedPromptPayload : ty :=
  TInterface
    [ ("role", false, TUnion [ TLit "system"; TLit "user"; TLit "assistant" ]);
      ("content", false, PromptMessageContent) ].

(** [type PromptPayload = ExpandedPromptPayload[] | string] *)
Definition PromptPayload : ty :=
  TUnion [ TArray ExpandedPromptPayload; TString ].

(** [interface ExpectedInputOrOutput] *)
Definition ExpectedInputOrOutput : ty :=
  TInterface
    [ ("type", false, TUnion [ TLit "text"; TLit "image"; TLit "audio" ]);
      ("languages", true, TArray TString) ].

(** [interface LanguageModelTool] *)
Definition LanguageModelTool : ty :=
  TInterface
    [ ("name", false, TString);
      ("description", false, TString);
      ("inputSchema", false,
        TInterface
          [ ("type", false,
              TUnion [ TLit "string"; TLit "number"; TLit "boolean";
                       TLit "array"; TLit "object" ]);
            ("properties", false,
              TObject []
                (Some
                   (TInterface
                      [ ("type", false,
                          TUnion [ TLit "string"; TLit "number"; TLit "boolean";
                                   TLit "array"; TLit "object" ]);
                        ("description", false, TString) ])));
            ("required", false, TArray TString) ]);
      ("execute", false,
        TFun [ ("input", false, TAny) ] (TUnion [ TPromise TAny; TAny ])) ].

(** [interface CreateOptions] *)
Definition CreateOptions : ty :=
  TInterface
    [ ("expectedInputs", true, TArray ExpectedInputOrOutput);
      ("expectedOutputs", true, TArray ExpectedInputOrOutput);
      ("initialPrompts", true, TArray PromptPayload);
      ("tools", true, TArray LanguageModelTool);
      ("temperature", true, TNumber);
      ("topK", true, TNumber) ].

(** [type Availability] *)
Definition Availability : ty :=
  TUnion
    [ TLit "available";
      TLit "downloading";
      TLit "downloadable";
      TLit "unavailable";
      TLit "unknown" ].

(** [type LanguageModelPromptResponse = string] *)
Definition LanguageModelPromptResponse : ty := TString.

(** [interface LanguageModelSession] *)
Definition LanguageModelSession : ty :=
  TInterface
    [ ("prompt", false,
        TFun [ ("payload", false, PromptPayload);
               ("options", true, PromptPayloadOptions) ]
             (TPromise LanguageModelPromptResponse));
      ("promptStreaming", false,
        TFun [ ("payload", false, PromptPayload);
               ("options", true, PromptPayloadOptions) ]
             (TAsyncIterable LanguageModelPromptResponse));
      ("measureInputUsage", false,
        TFun [ ("payload", false, PromptPayload);
               ("options", true, PromptPayloadOptions) ]
             (TPromise TNumber));
      ("topK", false, TNumber);
      ("temperature", false, TNumber);
      ("maxTokens", false, TNumber);
      ("inputQuota", false, TNumber);
      ("inputUsage", false, TNumber);
      ("addEventListener", false,
        TFun [ ("event", false, TString);
               ("callback", false, TFun [ ("event", false, TAny) ] TVoid) ]
             TVoid);
      ("removeEventListener", false,
        TFun [ ("event", false, TString);
               ("callback", false, TFun [ ("event", false, TAny) ] TVoid) ]
             TVoid);
      ("dispatchEvent", false,
        TFun [ ("event", false, TString); ("data", false, TAny) ] TVoid) ].

(** [interface LanguageModelType] *)
Definition LanguageModelType : ty :=
  TInterface
    [ ("create", false,
        TFun [ ("options", true, CreateOptions) ] (TPromise LanguageModelSession));
      ("availability", false, TFun [] (TPromise Availability)) ].

(** [type QuotaExceededError = DOMException & { ... }] *)
Definition QuotaExceededError : ty :=
  TInter
    [ THost "DOMException";
      TInterface
        [ ("requested", false, TNumber);
          ("quota", false, TNumber) ] ].

(** [declare global { interface Window { LanguageModel?: ... } }]: the
    member this package adds to the platform's [Window]. *)
Definition Window : ty :=
  TInterface [ ("LanguageModel", true, LanguageModelType) ].

(** Every exported declaration, under its name. *)
Definition exports : list (string * ty) :=
  [ ("LanguageModelOptions", LanguageModelOptions);
    ("PromptMessageContent", PromptMessageContent);
    ("PromptResponseConstraintProperty", PromptResponseConstraintProperty);
    ("PromptResponseConstraint", PromptResponseConstraint);
    ("PromptPayloadOptions", PromptPayloadOptions);
    ("PromptPayload", PromptPayload);
    ("ExpandedPromptPayload", ExpandedPromptPayload);
    ("ExpectedInputOrOutput", ExpectedInputOrOutput);
    ("CreateOptions", CreateOptions);
    ("LanguageModelTool", LanguageModelTool);
    ("Availability", Availability);
    ("LanguageModelType", LanguageModelType);
    ("LanguageModelSession", LanguageModelSession);
    ("LanguageModelPromptResponse", LanguageModelPromptResponse);
    ("QuotaExceededError", QuotaExceededError) ].

(** ** Reading the declarations *)

(** Whether platform interface [i] occurs anywhere in a type. *)
Fixpoint mentions (i : string) (t : ty) {struct t} : bool :=
  match t with
  | THost j => bool_decide (j = i)
  | TArray e => mentions i e
  | TPromise e => mentions i e
  | TAsyncIterable e => mentions i e
  | TUnion ts =>
      (fix any (ts : list ty) : bool :=
         match ts with
         | [] => false
         | t' :: ts' => mentions i t' || any ts'
         end) ts
  | TInter ts =>
      (fix any (ts : list ty) : bool :=
         match ts with
         | [] => false
         | t' :: ts' => mentions i t' || any ts'
         end) ts
  | TObject ms idx =>
      (fix any (ps : list (string * bool * ty)) : bool :=
         match ps with
         | [] => false
         | (_, _, t') :: ps' => mentions i t' || any ps'
         end) ms
      || match idx with Some ti => mentions i ti | None => false end
  | TFun ps r =>
      (fix any (ps : list (string * bool * ty)) : bool :=
         match ps with
         | [] => false
         | (_, _, t') :: ps' => mentions i t' || any ps'
         end) ps
      || mentions i r
  | _ => false
  end.

(** An error shape is a declaration built on the platform's exception
    interface. *)
Definition is_error_shape (t : ty) : bool := mentions "DOMException" t.

Definition error_shapes : list (string * ty) :=
  List.filter (λ d, is_error_shape d.2) exports.

(** The operations of a session and of the global capability object. *)
Definition prompt : ty := member_type LanguageModelSession "prompt".
Definition promptStreaming : ty := member_type LanguageModelSession "promptStreaming".
Definition measureInputUsage : ty := member_type LanguageModelSession "measureInputUsage".
Definition create : ty := member_type LanguageModelType "create".

(** The alternatives of a union; any other type is its own single
    alternative. *)
Definition alternatives (t : ty) : list ty :=
  match t with TUnion ts => ts | _ => [t] end.

(** The string literal an object type declares for its [type] member. *)
Definition tag_of (alt : ty) : option string :=
  match member_type alt "type" with TLit s => Some s | _ => None end.

(** The content kinds a tagged union declares, and the representations it
    declares for the value of one kind. *)
Definition declared_kinds (t : ty) : list string :=
  omap tag_of (alternatives t).

Definition declared_representations (t : ty) (kind : string) : list ty :=
  match List.find (λ alt, bool_decide (tag_of alt = Some kind)) (alternatives t) with
  | Some alt => alternatives (member_type alt "value")
  | None => []
  end.

(** The documented list: a plain string for text, the platform's image and
    media types for an image, and [Blob], [AudioBuffer], [BufferSource] for
    audio. *)
Definition documented_representations (kind : string) : list ty :=
  if bool_decide (kind = "text") then [ TString ]
  else if bool_decide (kind = "image") then
    THost <$> [ "Blob"; "ImageData"; "ImageBitmap"; "VideoFrame";
                "OffscreenCanvas"; "HTMLImageElement"; "SVGImageElement";
                "HTMLCanvasElement"; "HTMLVideoElement"; "BufferSource";
                "ArrayBuffer" ]
  else if bool_decide (kind = "audio") then
    THost <$> [ "Blob"; "AudioBuffer"; "BufferSource" ]
  else [].

(** ** Values used in the worked examples *)

(** A platform table: every constructor makes instances of the interface
    of its own name, and an [ArrayBuffer] is also a [BufferSource]. *)
Definition platform (c i : string) : bool :=
  bool_decide (c = i)
  || (bool_decide (c = "ArrayBuffer") && bool_decide (i = "BufferSource")).

Definition hi_message : JSVal :=
  obj [ ("role", VStr "user");
        ("content", obj [ ("type", VStr "text"); ("value", VStr "hi") ]) ].

Definition narrator_message : JSVal :=
  obj [ ("role", VStr "narrator");
        ("content", obj [ ("type", VStr "text"); ("value", VStr "hi") ]) ].

(** The constraint of the usage example. *)
Definition person_constraint : JSVal :=
  obj [ ("type", VStr "object");
        ("required", VArr [ VStr "name"; VStr "age" ]);
        ("additionalProperties", VBool false);
        ("properties",
          obj [ ("name", obj [ ("type", VStr "string");
                               ("description", VStr "Person name") ]);
                ("age", obj [ ("type", VStr "number");
                              ("description", VStr "Person age") ]) ]) ].

Definition person_options : JSVal :=
  obj [ ("responseConstraint", person_constraint);
        ("omitResponseConstraintInput", VBool false) ].

Definition quota_signal : JSVal :=
  VObj "DOMException"
    (list_to_map [ ("requested", VNum 500); ("quota", VNum 200) ]).

(** A constraint that leaves [required] out. *)
Definition constraint_without_required : JSVal :=
  obj [ ("type", VStr "object");
        ("additionalProperties", VBool false);
        ("properties", obj []) ].

(** An options value that gives a constraint and no omission flag. *)
Definition constraint_only_options : JSVal :=
  obj [ ("responseConstraint", person_constraint) ].

(** A value of the request-configuration shape. *)
Definition streaming_options : JSVal := obj [ ("stream", VBool true) ].

(** A window on which the capability object is not installed. *)
Definition bare_window : JSVal := VObj "Window" ∅.

(** ** The remaining operations and nested shapes *)

Definition addEventListener : ty := member_type LanguageModelSession "addEventListener".
Definition removeEventListener : ty := member_type LanguageModelSession "removeEventListener".
Definition dispatchEvent : ty := member_type LanguageModelSession "dispatchEvent".

(** The [inputSchema] member of a tool. *)
Definition inputSchema : ty := member_type LanguageModelTool "inputSchema".

(** The type tags of a tool's input schema. *)
Definition schema_types : list string :=
  [ "string"; "number"; "boolean"; "array"; "object" ].

(** The declared type of an operation of the capability object or of a
    session, by name. *)
Definition signature (name : string) : ty :=
  match lookup_member LanguageModelType name with
  | Some p => mtype p
  | None => member_type LanguageModelSession name
  end.

(** ** The usage example *)

(** [interface Window { LanguageModel: LanguageModelType; }] as the usage
    example declares it for its own file: the member is mandatory. *)
Definition ExampleWindow : ty :=
  TInterface [ ("LanguageModel", false, LanguageModelType) ].

(** A call of an operation of the language-model API. *)
Inductive HostCall : Type :=
  | Call (name : string) (args : list JSVal).

(** What the host gives the example: the global [window], the outcome
    of [availability()], of [create()] and of [prompt()], and the value
    that [document.getElementById] returns.  The outcome of a call is
    [Some v] when the awaited promise fulfils with [v], and [None] when it
    rejects or the host function throws, as [prompt] does on a quota
    error. *)
Record Host : Type := {
  host_window : JSVal;
  host_status : option JSVal;
  host_session : option JSVal;
  host_element : JSVal;
  host_answer : option JSVal
}.

(** A run of example code: the API calls made so far, in order, and the
    result, [None] once an exception left the example: a [TypeError], or
    what a rejected call threw at its [await].  What the example writes to
    the console is not recorded. *)
Definition Run (A : Type) : Type := (list HostCall * option A)%type.

#[global] Instance run_ret : MRet Run := λ A x, ([], Some x).

#[global] Instance run_bind : MBind Run := λ A B f r,
  match r.2 with
  | Some a => ((r.1 ++ (f a).1)%list, (f a).2)
  | None => (r.1, None)
  end.

(** [v.k]: throws when [v] is [undefined] or [null]. *)
Definition read (v : JSVal) (k : string) : Run JSVal := ([], get v k).

(** [await recv.name(...args)], the call having the outcome [result]: a
    [TypeError] is thrown before any call when [recv.name] cannot be read or
    is not a function; otherwise the call is made, and the run goes on with
    the value it fulfils with or ends with what it rejects with. *)
Definition invoke (recv : JSVal) (name : string) (args : list JSVal)
    (result : option JSVal) : Run JSVal :=
  match get recv name with
  | Some VFun => ([Call name args], result)
  | _ => ([], None)
  end.

(** [v === 'literal'] *)
Definition equals_literal (v : JSVal) (s : string) : bool :=
  match v with VStr s' => bool_decide (s' = s) | _ => false end.

(** The tool of [exampleWithTools]. *)
Definition time_tool : JSVal :=
  obj [ ("name", VStr "getCurrentTime");
        ("description", VStr "Get the current time");
        ("inputSchema",
          obj [ ("type", VStr "object");
                ("properties", obj []);
                ("required", VArr []) ]);
        ("execute", VFun) ].

(** [async function exampleWithTools()] *)
Definition exampleWithTools (h : Host) : Run unit :=
  model ← read (host_window h) "LanguageModel";
  available ← invoke model "availability" [] (host_status h);
  if equals_literal available "available" then
    session ← invoke model "create"
                [ obj [ ("tools", VArr [ time_tool ]) ] ] (host_session h);
    response ← invoke session "prompt" [ VStr "What time is it?" ] (host_answer h);
    mret tt
  else mret tt.

(** [async function exampleWithConstraints()] *)
Definition exampleWithConstraints (h : Host) : Run unit :=
  model ← read (host_window h) "LanguageModel";
  available ← invoke model "availability" [] (host_status h);
  if equals_literal available "available" then
    session ← invoke model "create" [] (host_session h);
    response ← invoke session "prompt"
                 [ VStr "Generate a person object with name and age";
                   person_options ] (host_answer h);
    mret tt
  else mret tt.

(** [async function exampleWithImage()]; [imageElement] is whatever
    [document.getElementById('myImage')] returned, the cast changes
    nothing at run time. *)
Definition exampleWithImage (h : Host) : Run unit :=
  model ← read (host_window h) "LanguageModel";
  available ← invoke model "availability" [] (host_status h);
  if equals_literal available "available" then
    session ← invoke model "create"
                [ obj [ ("expectedInputs",
                          VArr [ obj [ ("type", VStr "text") ];
                                 obj [ ("type", VStr "image") ] ]);
                        ("expectedOutputs",
                          VArr [ obj [ ("type", VStr "text") ] ]) ] ]
                (host_session h);
    let imageElement := host_element h in
    response ← invoke session "prompt"
                 [ VArr [ obj [ ("role", VStr "user");
                                ("content",
                                  obj [ ("type", VStr "text");
                                        ("value", VStr "What do you see in this image?") ]) ];
                          obj [ ("role", VStr "user");
                                ("content",
                                  obj [ ("type", VStr "image");
                                        ("value", imageElement) ]) ] ] ]
                 (host_answer h);
    mret tt
  else mret tt.

(** Whether a call is accepted by the declared type of its operation. *)
Definition well_typed (implements : string → string → bool) (c : HostCall) : bool :=
  match c with
  | Call name args => accepts_call implements (signature name) args
  end.

(** Hosts for the worked examples: one on which the API is installed,
    answering that the model is available, and one with a bare window. *)
Definition capability : JSVal :=
  VObj "LanguageModel"
    (list_to_map [ ("create", VFun); ("availability", VFun) ]).

Definition ready_window : JSVal :=
  VObj "Window" (list_to_map [ ("LanguageModel", capability) ]).

Definition ready_session : JSVal :=
  VObj "LanguageModelSession"
    (list_to_map
       [ ("prompt", VFun); ("promptStreaming", VFun);
         ("measureInputUsage", VFun);
         ("topK", VNum 3); ("temperature", VNum 1); ("maxTokens", VNum 1024);
         ("inputQuota", VNum 4096); ("inputUsage", VNum 0);
         ("addEventListener", VFun); ("removeEventListener", VFun);
         ("dispatchEvent", VFun) ]).

Definition ready_host (element : JSVal) : Host :=
  {| host_window := ready_window;
     host_status := Some (VStr "available");
     host_session := Some ready_session;
     host_element := element;
     host_answer := Some (VStr "It is noon.") |}.

Definition bare_host : Host :=
  {| host_window := bare_window;
     host_status := Some (VStr "unavailable");
     host_session := None;
     host_element := VNull;
     host_answer := None |}.

(** A host on which the API is installed and whose [prompt] rejects, as
    it does when the input quota is exceeded. *)
Definition rejecting_host : Host :=
  {| host_window := ready_window;
     host_status := Some (VStr "available");
     host_session := Some ready_session;
     host_element := VNull;
     host_answer := None |}.

(** The properties of the input schema of [time_tool]. *)
Definition time_schema : gmap string JSVal :=
  list_to_map [ ("type", VStr "object");
                ("properties", obj []);
                ("required", VArr []) ].

(** The properties of a constraint, and of a session-creation bundle that
    seeds the session with a system text and one exchange. *)
Definition loose_constraint : gmap string JSVal :=
  list_to_map [ ("type", VStr "object");
                ("required", VArr []);
                ("additionalProperties", VBool true);
                ("properties", obj [ ("name", obj [ ("type", VStr "string") ]) ]) ].

Definition seeded_bundle : gmap string JSVal :=
  list_to_map
    [ ("initialPrompts", VArr [ VStr "You are a helpful assistant.";
                                VArr [ hi_message ] ]) ].

(** ** General facts about conformance *)

Ltac member_here :=
  repeat first [ apply list_elem_of_here | apply list_elem_of_further ].

Section Theory.

Variable implements : string → string → bool.

Local Abbreviation conforms := (conforms implements).
Local Abbreviation field_ok := (field_ok implements).
Local Abbreviation accepts_args := (accepts_args implements).
Local Abbreviation accepts_call := (accepts_call implements).

Lemma conforms_union ts v :
  conforms (TUnion ts) v = existsb (λ t, conforms t v) ts.
Proof. cbn. induction ts as [|t ts IH]; [done|]. cbn. by rewrite IH. Qed.

Lemma conforms_inter ts v :
  conforms (TInter ts) v = forallb (λ t, conforms t v) ts.
Proof. cbn. induction ts as [|t ts IH]; [done|]. cbn. by rewrite IH. Qed.

Lemma conforms_object ms idx c m :
  conforms (TObject ms idx) (VObj c m)
  = forallb (field_ok m) ms
    && match idx with
       | None => true
       | Some ti => forallb (conforms ti) (map snd (map_to_list m))
       end.
Proof.
  cbn. f_equal.
  induction ms as [|[[k o] t] ms IH]; [done|].
  cbn. by rewrite IH.
Qed.

Lemma conforms_interface ms c m :
  conforms (TInterface ms) (VObj c m) = forallb (field_ok m) ms.
Proof. unfold TInterface. rewrite conforms_object. apply andb_true_r. Qed.

Lemma conforms_object_inv ms idx v :
  conforms (TObject ms idx) v = true → ∃ c m, v = VObj c m.
Proof. destruct v; try discriminate. eauto. Qed.

Lemma conforms_lit s v : conforms (TLit s) v = true ↔ v = VStr s.
Proof.
  destruct v; cbn; try (split; [discriminate | by intros [=]]).
  rewrite bool_decide_eq_true. split; [by intros -> | by intros [= ->]].
Qed.

Lemma conforms_string v : conforms TString v = true ↔ ∃ s, v = VStr s.
Proof. destruct v; cbn; split; try discriminate; try (by intros [? [=]]); eauto. Qed.

Lemma conforms_number v : conforms TNumber v = true ↔ ∃ n, v = VNum n.
Proof. destruct v; cbn; split; try discriminate; try (by intros [? [=]]); eauto. Qed.

Lemma conforms_boolean v : conforms TBoolean v = true ↔ ∃ b, v = VBool b.
Proof. destruct v; cbn; split; try discriminate; try (by intros [? [=]]); eauto. Qed.

Lemma is_undef_true v : is_undef v = true ↔ v = VUndef.
Proof. destruct v; cbn; split; try discriminate; done. Qed.

Lemma forallb_Forall {A} (f : A → bool) l :
  forallb f l = true ↔ Forall (λ x, f x = true) l.
Proof. rewrite forallb_forall, Forall_forall. by setoid_rewrite list_elem_of_In. Qed.

Lemma conforms_array e v :
  conforms (TArray e) v = true
  ↔ ∃ l, v = VArr l ∧ Forall (λ x, conforms e x = true) l.
Proof.
  destruct v; cbn; split; try discriminate; try (by intros (? & [=] & _)).
  - intros H. eexists. split; [done|]. by apply forallb_Forall.
  - intros (l & [= ->] & H). by apply forallb_Forall.
Qed.

Lemma conforms_promise t v :
  conforms (TPromise t) v = true ↔ ∃ x, v = VPromise x ∧ conforms t x = true.
Proof.
  destruct v; cbn; split; try discriminate; try (by intros (? & [=] & _)).
  - eauto.
  - by intros (x & [= ->] & H).
Qed.

Lemma conforms_async_iterable t v :
  conforms (TAsyncIterable t) v = true
  ↔ ∃ l, v = VAsyncIter l ∧ Forall (λ x, conforms t x = true) l.
Proof.
  destruct v; cbn; split; try discriminate; try (by intros (? & [=] & _)).
  - intros H. eexists. split; [done|]. by apply forallb_Forall.
  - intros (l & [= ->] & H). by apply forallb_Forall.
Qed.

(** A mandatory member must be present with a conforming value. *)
Lemma field_ok_mandatory k t m :
  field_ok m (k, false, t) = true ↔ ∃ x, m !! k = Some x ∧ conforms t x = true.
Proof.
  unfold field_ok. cbn. destruct (m !! k) as [x|].
  - rewrite orb_false_r. naive_solver.
  - naive_solver.
Qed.

(** An optional member may be absent or [undefined]. *)
Lemma field_ok_optional k t m :
  field_ok m (k, true, t) = true
  ↔ m !! k = None ∨ ∃ x, m !! k = Some x ∧ (x = VUndef ∨ conforms t x = true).
Proof.
  unfold field_ok. cbn. destruct (m !! k) as [x|].
  - rewrite orb_true_iff, is_undef_true. naive_solver.
  - naive_solver.
Qed.

Lemma object_mandatory ms idx c m k t :
  (k, false, t) ∈ ms →
  conforms (TObject ms idx) (VObj c m) = true →
  ∃ x, m !! k = Some x ∧ conforms t x = true.
Proof.
  rewrite conforms_object, andb_true_iff, forallb_Forall, Forall_forall.
  intros Hin [H _]. apply field_ok_mandatory. by apply H.
Qed.

Lemma object_missing ms idx c m k t :
  (k, false, t) ∈ ms →
  m !! k = None →
  conforms (TObject ms idx) (VObj c m) = false.
Proof.
  intros Hin Hk. apply not_true_is_false. intros H.
  destruct (object_mandatory _ _ _ _ _ _ Hin H) as (x & Hx & _). congruence.
Qed.

(** Removing a property cannot break an interface whose members are all
    optional. *)
Lemma interface_delete ms c m k :
  forallb moptional ms = true →
  conforms (TInterface ms) (VObj c m) = true →
  conforms (TInterface ms) (VObj c (delete k m)) = true.
Proof.
  rewrite !conforms_interface, !forallb_Forall, !Forall_forall.
  intros Hopt H [[k' o] t] Hin.
  specialize (Hopt _ Hin). specialize (H _ Hin).
  cbn in Hopt. subst o.
  apply field_ok_optional. apply field_ok_optional in H.
  destruct (decide (k = k')) as [->|Hne].
  - left. apply lookup_delete_eq.
  - by rewrite lookup_delete_ne.
Qed.

(** The weak-type check, read as a statement about properties. *)
Lemma has_no_property_iff c (m : gmap string JSVal) :
  has_no_property (VObj c m) = true ↔ m = ∅.
Proof. cbn. by rewrite bool_decide_eq_true, map_size_empty_iff. Qed.

Lemma shares_member_iff ms idx c m :
  shares_member (TObject ms idx) (VObj c m) = true
  ↔ ∃ k, k ∈ mname <$> ms ∧ is_Some (m !! k).
Proof.
  cbn. rewrite existsb_exists. split.
  - intros (p & Hin & Hp). exists (mname p). split.
    + apply list_elem_of_fmap. exists p. split; [done|]. by apply list_elem_of_In.
    + by apply bool_decide_eq_true in Hp.
  - intros (k & (p & -> & Hin)%list_elem_of_fmap & Hk). exists p. split.
    + by apply list_elem_of_In.
    + by apply bool_decide_eq_true.
Qed.

Lemma valid_weak ms c m :
  weak_type (TInterface ms) = true →
  valid implements (TInterface ms) (VObj c m) = true
  ↔ conforms (TInterface ms) (VObj c m) = true
    ∧ (m = ∅ ∨ ∃ k, k ∈ mname <$> ms ∧ is_Some (m !! k)).
Proof.
  unfold valid, TInterface. intros ->. cbn [negb orb].
  by rewrite andb_true_iff, orb_true_iff, has_no_property_iff, shares_member_iff.
Qed.

Lemma valid_not_weak t v :
  weak_type t = false → valid implements t v = conforms t v.
Proof. intros Hweak. unfold valid. rewrite Hweak. cbn. apply andb_true_r. Qed.

End Theory.

(** ** The claims *)

Section Claims.

Variable implements : string → string → bool.

Local Abbreviation conforms := (conforms implements).
Local Abbreviation accepts_call := (accepts_call implements).

(* An object fails an interface one of whose mandatory members it lacks. *)
Ltac missing H :=
  eapply object_missing; [ | exact H ]; member_here.

(** C3. The availability status is a closed enumeration: a value has
    type [Availability] exactly when it is one of the five strings
    available, downloading, downloadable, unavailable, unknown. *)
Theorem availability_closed v :
  conforms Availability v = true
  ↔ v = VStr "available" ∨ v = VStr "downloading" ∨ v = VStr "downloadable"
    ∨ v = VStr "unavailable" ∨ v = VStr "unknown".
Proof.
  unfold Availability. rewrite conforms_union. cbn [existsb].
  rewrite !orb_true_iff, !conforms_lit. naive_solver.
Qed.

Lemma role_closed r :
  conforms (TUnion [ TLit "system"; TLit "user"; TLit "assistant" ]) r = true
  ↔ ∃ s, s ∈ [ "system"; "user"; "assistant" ] ∧ r = VStr s.
Proof.
  rewrite conforms_union. cbn [existsb].
  rewrite !orb_true_iff, !conforms_lit. split.
  - intros [->|[->|[->|[=]]]]; eexists; (split; [|done]); member_here.
  - intros (s & Hs & ->). rewrite !elem_of_cons in Hs.
    destruct Hs as [->|[->|[->|Hs]]]; auto. by apply elem_of_nil in Hs.
Qed.

(** C4. The role of a structured message is one of system, user,
    assistant: the message [{role: "user", content: {type: "text", value:
    "hi"}}] is valid, each of the three roles is accepted with valid
    content, and a message whose role is any value outside the three fails
    validation. *)
Theorem message_role_closed :
  conforms ExpandedPromptPayload hi_message = true
  ∧ (∀ c m s x,
       s ∈ [ "system"; "user"; "assistant" ] →
       m !! "role" = Some (VStr s) →
       m !! "content" = Some x →
       conforms PromptMessageContent x = true →
       conforms ExpandedPromptPayload (VObj c m) = true)
  ∧ (∀ c m r,
       m !! "role" = Some r →
       (∀ s, s ∈ [ "system"; "user"; "assistant" ] → r ≠ VStr s) →
       conforms ExpandedPromptPayload (VObj c m) = false).
Proof.
  split_and!; [by vm_compute| |].
  - intros c m s x Hs Hr Hx Hc. unfold ExpandedPromptPayload.
    rewrite conforms_interface. cbn [forallb].
    rewrite !andb_true_iff, !field_ok_mandatory. split_and!; [|eauto|done].
    exists (VStr s). split; [done|]. apply role_closed. eauto.
  - intros c m r Hr Hout. apply not_true_is_false. intros H.
    unfold ExpandedPromptPayload, TInterface in H.
    eapply object_mandatory in H; [|apply list_elem_of_here].
    destruct H as (x & Hx & Hrole). rewrite Hr in Hx. injection Hx as <-.
    apply role_closed in Hrole as (s & Hs & ->). by eapply Hout.
Qed.

(** C7. The four members type, required, additionalProperties and
    properties of a response constraint are mandatory: an object that
    lacks any one of them, in particular [required] or [properties], fails
    validation against [PromptResponseConstraint]. *)
Theorem response_constraint_mandatory c m k :
  k ∈ [ "type"; "required"; "additionalProperties"; "properties" ] →
  m !! k = None →
  conforms PromptResponseConstraint (VObj c m) = false.
Proof.
  intros Hk Hm. unfold PromptResponseConstraint, TInterface.
  rewrite !elem_of_cons in Hk.
  destruct Hk as [->|[->|[->|[->|Hk]]]];
    [ missing Hm .. | by apply elem_of_nil in Hk ].
Qed.

Lemma payload_options_conforms v :
  conforms PromptPayloadOptions v = true
  ↔ ∃ c m rc o, v = VObj c m
      ∧ m !! "responseConstraint" = Some rc
      ∧ conforms PromptResponseConstraint rc = true
      ∧ m !! "omitResponseConstraintInput" = Some (VBool o).
Proof.
  unfold PromptPayloadOptions. split.
  - intros H. destruct (conforms_object_inv _ _ _ _ H) as (c & m & ->).
    rewrite conforms_interface in H. cbn [forallb] in H.
    rewrite !andb_true_iff, !field_ok_mandatory in H.
    destruct H as ((rc & Hrc & Hc) & (o & Ho & Hb) & _).
    apply conforms_boolean in Hb as [b ->]. by exists c, m, rc, b.
  - intros (c & m & rc & o & -> & Hrc & Hc & Ho).
    rewrite conforms_interface. cbn [forallb].
    rewrite !andb_true_iff, !field_ok_mandatory. split_and!; eauto.
Qed.

(** C10. Both members of the per-prompt options pair are mandatory: an
    options value is valid exactly when it is an object holding a valid
    [responseConstraint] and a boolean [omitResponseConstraintInput], so an
    object lacking either one is rejected. *)
Theorem payload_options_mandatory :
  (∀ v, conforms PromptPayloadOptions v = true
        ↔ ∃ c m rc o, v = VObj c m
            ∧ m !! "responseConstraint" = Some rc
            ∧ conforms PromptResponseConstraint rc = true
            ∧ m !! "omitResponseConstraintInput" = Some (VBool o))
  ∧ (∀ c m, m !! "responseConstraint" = None →
            conforms PromptPayloadOptions (VObj c m) = false)
  ∧ (∀ c m, m !! "omitResponseConstraintInput" = None →
            conforms PromptPayloadOptions (VObj c m) = false).
Proof.
  split; [exact payload_options_conforms|].
  unfold PromptPayloadOptions. split; intros c m Hm; missing Hm.
Qed.

Lemma payload_shape v :
  conforms PromptPayload v = true
  ↔ (∃ s, v = VStr s)
    ∨ (∃ msgs, v = VArr msgs
         ∧ Forall (λ x, conforms ExpandedPromptPayload x = true) msgs).
Proof.
  unfold PromptPayload. rewrite conforms_union. cbn [existsb].
  rewrite !orb_true_iff, conforms_array, conforms_string. naive_solver.
Qed.

(** The argument lists taken by an operation declared as
    [(payload: PromptPayload, options?: PromptPayloadOptions) => r]. *)
Lemma session_call_args r args :
  accepts_call
    (TFun [ ("payload", false, PromptPayload);
            ("options", true, PromptPayloadOptions) ] r) args = true
  ↔ ∃ p, conforms PromptPayload p = true
      ∧ (args = [p]
         ∨ ∃ o, args = [p; o]
             ∧ (o = VUndef ∨ conforms PromptPayloadOptions o = true)).
Proof.
  unfold accepts_call.
  destruct args as [|p [|o [|x rest]]];
    cbn [accepts_args mtype moptional fst snd andb orb].
  - split; [discriminate | intros (p & _ & [[=]|(o & [=] & _)])].
  - rewrite orb_false_r, andb_true_r. split.
    + intros H. exists p. eauto.
    + intros (p' & Hp & [[= <-]|(o & [=] & _)]). done.
  - rewrite orb_false_r, andb_true_r, andb_true_iff, orb_true_iff, is_undef_true.
    split.
    + intros [Hp Ho]. exists p. split; [done|]. right. exists o. naive_solver.
    + intros (p' & Hp & [[=]|(o' & [= <- <-] & Ho)]). naive_solver.
  - rewrite !andb_false_r. split; [discriminate|].
    intros (p' & _ & [[=]|(o' & [=] & _)]).
Qed.

Lemma prompt_declared :
  prompt = TFun [ ("payload", false, PromptPayload);
                  ("options", true, PromptPayloadOptions) ]
             (TPromise LanguageModelPromptResponse).
Proof. reflexivity. Qed.

Lemma promptStreaming_declared :
  promptStreaming = TFun [ ("payload", false, PromptPayload);
                           ("options", true, PromptPayloadOptions) ]
                      (TAsyncIterable LanguageModelPromptResponse).
Proof. reflexivity. Qed.

Lemma measureInputUsage_declared :
  measureInputUsage = TFun [ ("payload", false, PromptPayload);
                             ("options", true, PromptPayloadOptions) ]
                        (TPromise TNumber).
Proof. reflexivity. Qed.

(** C1. The three session operations take the same arguments: a payload
    that is a string or a list of structured messages, then optionally an
    options pair.  [prompt] yields a promise of a string, [promptStreaming]
    an async sequence of strings, and [measureInputUsage] a promise of a
    number, with no text in it. *)
Theorem session_operations_shape :
  (∀ args, accepts_call promptStreaming args = accepts_call prompt args
           ∧ accepts_call measureInputUsage args = accepts_call prompt args)
  ∧ (∀ args, accepts_call prompt args = true
       ↔ ∃ p, ((∃ s, p = VStr s)
               ∨ (∃ msgs, p = VArr msgs
                    ∧ Forall (λ x, conforms ExpandedPromptPayload x = true) msgs))
            ∧ (args = [p]
               ∨ ∃ o, args = [p; o]
                   ∧ (o = VUndef ∨ conforms PromptPayloadOptions o = true)))
  ∧ (∀ r, conforms (result_type prompt) r = true ↔ ∃ s, r = VPromise (VStr s))
  ∧ (∀ r, conforms (result_type promptStreaming) r = true
       ↔ ∃ l, r = VAsyncIter l ∧ Forall (λ x, ∃ s, x = VStr s) l)
  ∧ (∀ r, conforms (result_type measureInputUsage) r = true
       ↔ ∃ n, r = VPromise (VNum n)).
Proof.
  rewrite prompt_declared, promptStreaming_declared, measureInputUsage_declared.
  split_and!.
  - done.
  - intros args. rewrite session_call_args.
    by setoid_rewrite payload_shape.
  - intros r. cbn [result_type]. rewrite conforms_promise.
    setoid_rewrite conforms_string. naive_solver.
  - intros r. cbn [result_type]. rewrite conforms_async_iterable.
    by setoid_rewrite conforms_string.
  - intros r. cbn [result_type]. rewrite conforms_promise.
    setoid_rewrite conforms_number. naive_solver.
Qed.

Lemma quota_exceeded_conforms v :
  conforms QuotaExceededError v = true
  ↔ ∃ c m r q, v = VObj c m
      ∧ implements c "DOMException" = true
      ∧ m !! "requested" = Some (VNum r)
      ∧ m !! "quota" = Some (VNum q).
Proof.
  unfold QuotaExceededError. rewrite conforms_inter. cbn [forallb].
  rewrite !andb_true_iff. split.
  - intros (Hdom & H & _).
    destruct (conforms_object_inv _ _ _ _ H) as (c & m & ->).
    rewrite conforms_interface in H. cbn [forallb] in H.
    rewrite !andb_true_iff, !field_ok_mandatory in H.
    destruct H as ((r & Hr & Hrn) & (q & Hq & Hqn) & _).
    apply conforms_number in Hrn as [r' ->].
    apply conforms_number in Hqn as [q' ->].
    by exists c, m, r', q'.
  - intros (c & m & r & q & -> & Hdom & Hr & Hq).
    rewrite conforms_interface. cbn [forallb].
    rewrite !andb_true_iff, !field_ok_mandatory. split_and!; eauto.
Qed.

(** C2. The package declares exactly one error shape,
    [QuotaExceededError]: a platform exception carrying the numbers
    [requested] and [quota].  Such a signal with [requested: 500] and
    [quota: 200] matches the shape; a value without [quota] does not. *)
Theorem quota_exceeded_shape :
  error_shapes = [ ("QuotaExceededError", QuotaExceededError) ]
  ∧ (∀ v, conforms QuotaExceededError v = true
       ↔ ∃ c m r q, v = VObj c m
           ∧ implements c "DOMException" = true
           ∧ m !! "requested" = Some (VNum r)
           ∧ m !! "quota" = Some (VNum q))
  ∧ (∀ c m, implements c "DOMException" = true →
            m !! "requested" = Some (VNum 500) →
            m !! "quota" = Some (VNum 200) →
            conforms QuotaExceededError (VObj c m) = true)
  ∧ (∀ c m, m !! "quota" = None →
            conforms QuotaExceededError (VObj c m) = false).
Proof.
  split_and!.
  - by vm_compute.
  - apply quota_exceeded_conforms.
  - intros c m Hdom Hr Hq. apply quota_exceeded_conforms.
    by exists c, m, 500%Z, 200%Z.
  - intros c m Hq. apply not_true_is_false.
    intros (c' & m' & r & q & [= <- <-] & _ & _ & Hq')%quota_exceeded_conforms.
    congruence.
Qed.

(** One alternative of the content union: an object whose [type] is the
    literal [kind] and whose [value] has type [t]. *)
Lemma content_alternative kind t v :
  conforms (TInterface [ ("type", false, TLit kind); ("value", false, t) ]) v = true
  ↔ ∃ c m x, v = VObj c m
      ∧ m !! "type" = Some (VStr kind)
      ∧ m !! "value" = Some x
      ∧ conforms t x = true.
Proof.
  split.
  - intros H. destruct (conforms_object_inv _ _ _ _ H) as (c & m & ->).
    rewrite conforms_interface in H. cbn [forallb] in H.
    rewrite !andb_true_iff, !field_ok_mandatory in H.
    destruct H as ((k & Hk & Hlit) & (x & Hx & Ht) & _).
    apply conforms_lit in Hlit as ->. by exists c, m, x.
  - intros (c & m & x & -> & Hk & Hx & Ht).
    rewrite conforms_interface. cbn [forallb].
    rewrite !andb_true_iff, !field_ok_mandatory. split_and!; [|eauto|done].
    exists (VStr kind). split; [done|]. by apply conforms_lit.
Qed.

(** C5. Prompt content is a union over the three tags text, image, audio,
    and for each tag the declared representations of the value are the
    documented ones, no more and no fewer; a value is valid content exactly
    when its tag is one of the three and its value has one of the
    representations listed for that tag. *)
Theorem content_tagged_union :
  declared_kinds PromptMessageContent = [ "text"; "image"; "audio" ]
  ∧ (∀ kind, declared_representations PromptMessageContent kind
             = documented_representations kind)
  ∧ (∀ v, conforms PromptMessageContent v = true
       ↔ ∃ c m kind x, v = VObj c m
           ∧ m !! "type" = Some (VStr kind)
           ∧ m !! "value" = Some x
           ∧ existsb (λ t, conforms t x) (documented_representations kind) = true).
Proof.
  split_and!.
  - reflexivity.
  - intros kind. unfold documented_representations.
    destruct (decide (kind = "text")) as [->|Htext]; [reflexivity|].
    destruct (decide (kind = "image")) as [->|Himage]; [reflexivity|].
    destruct (decide (kind = "audio")) as [->|Haudio]; [reflexivity|].
    rewrite !bool_decide_eq_false_2 by done.
    unfold declared_representations, PromptMessageContent.
    cbn [alternatives List.find].
    change (tag_of (TInterface (("type", false, TLit ?k) :: ?ms))) with (Some k).
    rewrite !bool_decide_eq_false_2 by congruence. done.
  - intros v. unfold PromptMessageContent.
    rewrite conforms_union. cbn [existsb].
    rewrite !orb_true_iff, !content_alternative. split.
    + intros [H|[H|[H|[=]]]]; destruct H as (c & m & x & -> & Hk & Hx & Ht);
        eexists c, m, _, x; (split_and!; [done|exact Hk|exact Hx|]).
      * change (documented_representations "text") with [TString].
        cbn [existsb]. by rewrite Ht.
      * rewrite conforms_union in Ht. exact Ht.
      * rewrite conforms_union in Ht. exact Ht.
    + intros (c & m & kind & x & -> & Hk & Hx & Ht).
      unfold documented_representations in Ht.
      destruct (decide (kind = "text")) as [->|Htext].
      { left. exists c, m, x. split_and!; try done.
        cbn [bool_decide existsb] in Ht. change (conforms TString x || false = true) in Ht.
        by rewrite orb_false_r in Ht. }
      destruct (decide (kind = "image")) as [->|Himage].
      { right; left. exists c, m, x. by rewrite conforms_union. }
      destruct (decide (kind = "audio")) as [->|Haudio].
      { right; right; left. exists c, m, x. by rewrite conforms_union. }
      rewrite !bool_decide_eq_false_2 in Ht by done. discriminate.
Qed.

Lemma create_declared :
  create = TFun [ ("options", true, CreateOptions) ] (TPromise LanguageModelSession).
Proof. reflexivity. Qed.

Lemma create_options_empty c : conforms CreateOptions (VObj c ∅) = true.
Proof.
  unfold CreateOptions. rewrite conforms_interface. cbn [forallb].
  rewrite !andb_true_iff, !field_ok_optional.
  split_and!; try done; left; apply lookup_empty.
Qed.

Lemma create_options_valid c m :
  valid implements CreateOptions (VObj c m) = true
  ↔ optional_member implements m "expectedInputs" (TArray ExpectedInputOrOutput)
    ∧ optional_member implements m "expectedOutputs" (TArray ExpectedInputOrOutput)
    ∧ optional_member implements m "initialPrompts" (TArray PromptPayload)
    ∧ optional_member implements m "tools" (TArray LanguageModelTool)
    ∧ optional_member implements m "temperature" TNumber
    ∧ optional_member implements m "topK" TNumber
    ∧ (m = ∅
       ∨ ∃ k, k ∈ [ "expectedInputs"; "expectedOutputs"; "initialPrompts";
                    "tools"; "temperature"; "topK" ]
            ∧ is_Some (m !! k)).
Proof.
  unfold CreateOptions, optional_member.
  rewrite valid_weak by reflexivity.
  rewrite conforms_interface. cbn [forallb].
  rewrite !andb_true_iff, !field_ok_optional.
  change (mname <$> _)
    with [ "expectedInputs"; "expectedOutputs"; "initialPrompts";
           "tools"; "temperature"; "topK" ].
  split.
  - intros [(? & ? & ? & ? & ? & ? & _) ?]. by split_and!.
  - intros (? & ? & ? & ? & ? & ? & ?). by split_and!.
Qed.

(** C6. Every member of the session-creation bundle is optional.  A
    bundle is valid exactly when each of its six members is absent,
    [undefined] or of its declared type, and it is empty or has at least
    one of the six; so the empty object is valid, and leaving a property
    out of a valid bundle keeps it valid as long as what is left is empty
    or still has one of the six.  [create] takes no argument, [undefined],
    or one valid bundle, and nothing else; it yields a promise of a
    session. *)
Theorem create_options_all_optional :
  (∀ c m, valid implements CreateOptions (VObj c m) = true
       ↔ optional_member implements m "expectedInputs" (TArray ExpectedInputOrOutput)
         ∧ optional_member implements m "expectedOutputs" (TArray ExpectedInputOrOutput)
         ∧ optional_member implements m "initialPrompts" (TArray PromptPayload)
         ∧ optional_member implements m "tools" (TArray LanguageModelTool)
         ∧ optional_member implements m "temperature" TNumber
         ∧ optional_member implements m "topK" TNumber
         ∧ (m = ∅
            ∨ ∃ k, k ∈ [ "expectedInputs"; "expectedOutputs"; "initialPrompts";
                         "tools"; "temperature"; "topK" ]
                 ∧ is_Some (m !! k)))
  ∧ (∀ c, valid implements CreateOptions (VObj c ∅) = true)
  ∧ (∀ c m k,
       valid implements CreateOptions (VObj c m) = true →
       (delete k m = ∅
        ∨ ∃ k', k' ∈ [ "expectedInputs"; "expectedOutputs"; "initialPrompts";
                       "tools"; "temperature"; "topK" ]
              ∧ is_Some (delete k m !! k')) →
       valid implements CreateOptions (VObj c (delete k m)) = true)
  ∧ (∀ args, takes_call implements create args = true
       ↔ args = []
         ∨ ∃ o, args = [o]
             ∧ (o = VUndef ∨ valid implements CreateOptions o = true))
  ∧ (∀ r, conforms (result_type create) r = true
       ↔ ∃ h, r = VPromise h ∧ conforms LanguageModelSession h = true).
Proof.
  split_and!.
  - exact create_options_valid.
  - intros c. unfold CreateOptions. rewrite valid_weak by reflexivity.
    split; [apply create_options_empty | by left].
  - intros c m k. unfold CreateOptions.
    rewrite !valid_weak by reflexivity.
    intros [H _] Hleft. split; [by apply interface_delete | exact Hleft].
  - rewrite create_declared. unfold takes_call.
    intros [|o [|x rest]]; cbn [takes_args mtype moptional fst snd andb].
    + split; [by left | done].
    + rewrite andb_true_r, orb_true_iff, is_undef_true. split.
      * intros H. right. exists o. naive_solver.
      * intros [[=]|(o' & [= <-] & H)]. naive_solver.
    + rewrite !andb_false_r. split; [discriminate|].
      intros [[=]|(o' & [=] & _)].
  - intros r. rewrite create_declared. cbn [result_type]. apply conforms_promise.
Qed.

Lemma request_options_valid c m :
  valid implements LanguageModelOptions (VObj c m) = true
  ↔ optional_member implements m "model" TString
    ∧ optional_member implements m "temperature" TNumber
    ∧ optional_member implements m "maxTokens" TNumber
    ∧ optional_member implements m "topP" TNumber
    ∧ optional_member implements m "stream" TBoolean
    ∧ optional_member implements m "signal" (THost "AbortSignal")
    ∧ (m = ∅
       ∨ ∃ k, k ∈ [ "model"; "temperature"; "maxTokens"; "topP";
                    "stream"; "signal" ]
            ∧ is_Some (m !! k)).
Proof.
  unfold LanguageModelOptions, optional_member.
  rewrite valid_weak by reflexivity.
  rewrite conforms_interface. cbn [forallb].
  rewrite !andb_true_iff, !field_ok_optional.
  change (mname <$> _)
    with [ "model"; "temperature"; "maxTokens"; "topP"; "stream"; "signal" ].
  split.
  - intros [(? & ? & ? & ? & ? & ? & _) ?]. by split_and!.
  - intros (? & ? & ? & ? & ? & ? & ?). by split_and!.
Qed.

(** C8, as the code has it.  [LanguageModelOptions] declares six members,
    all optional: model, temperature, maxTokens, topP, stream, signal; a
    value has this shape exactly when each of the six is absent,
    [undefined] or of its type and the value is empty or has one of them.
    No session operation takes it: [prompt], [promptStreaming] and
    [measureInputUsage] accept exactly a payload followed by nothing,
    [undefined] or a [PromptPayloadOptions] value, and they refuse every
    options object made of nothing but the six request fields. *)
Theorem request_options_shape :
  (∀ c m, valid implements LanguageModelOptions (VObj c m) = true
       ↔ optional_member implements m "model" TString
         ∧ optional_member implements m "temperature" TNumber
         ∧ optional_member implements m "maxTokens" TNumber
         ∧ optional_member implements m "topP" TNumber
         ∧ optional_member implements m "stream" TBoolean
         ∧ optional_member implements m "signal" (THost "AbortSignal")
         ∧ (m = ∅
            ∨ ∃ k, k ∈ [ "model"; "temperature"; "maxTokens"; "topP";
                         "stream"; "signal" ]
                 ∧ is_Some (m !! k)))
  ∧ (∀ op, op ∈ [ prompt; promptStreaming; measureInputUsage ] →
       ∀ args, accepts_call op args = true
         ↔ ∃ p, conforms PromptPayload p = true
             ∧ (args = [p]
                ∨ ∃ o, args = [p; o]
                    ∧ (o = VUndef
                       ∨ conforms PromptPayloadOptions o = true)))
  ∧ (∀ op, op ∈ [ prompt; promptStreaming; measureInputUsage ] →
       ∀ p c m,
         (∀ k, is_Some (m !! k) →
               k ∈ [ "model"; "temperature"; "maxTokens"; "topP";
                     "stream"; "signal" ]) →
         accepts_call op [ p; VObj c m ] = false).
Proof.
  assert (∀ op, op ∈ [ prompt; promptStreaming; measureInputUsage ] →
            ∃ r, op = TFun [ ("payload", false, PromptPayload);
                             ("options", true, PromptPayloadOptions) ] r)
    as Hdeclared.
  { intros op Hop. rewrite !elem_of_cons in Hop.
    destruct Hop as [->|[->|[->|Hop]]]; [by eexists ..|].
    by apply elem_of_nil in Hop. }
  split_and!.
  - exact request_options_valid.
  - intros op [r ->]%Hdeclared args. apply session_call_args.
  - intros op [r ->]%Hdeclared p c m Hkeys. apply not_true_is_false.
    intros (p' & _ & [[=]|(o & [= <- <-] & Ho)])%session_call_args.
    destruct Ho as [[=]|Ho].
    apply payload_options_conforms in Ho
      as (c' & m' & rc & b & [= <- <-] & Hrc & _).
    specialize (Hkeys "responseConstraint" (mk_is_Some _ _ Hrc)).
    rewrite !elem_of_cons in Hkeys.
    destruct Hkeys as [[=]|[[=]|[[=]|[[=]|[[=]|[[=]|Hnil]]]]]].
    by apply elem_of_nil in Hnil.
Qed.

(** C9. The package declares [LanguageModel] on [Window] as optional.  A
    window without it is valid and reading the property gives
    [undefined], which is no capability object: [availability] and
    [create] cannot be read from it.  What a valid window does hold there
    is [undefined] or a capability object with both operations. *)
Theorem window_language_model_optional :
  (∀ c m, m !! "LanguageModel" = None →
          conforms Window (VObj c m) = true
          ∧ get (VObj c m) "LanguageModel" = Some VUndef)
  ∧ conforms LanguageModelType VUndef = false
  ∧ get VUndef "availability" = None
  ∧ get VUndef "create" = None
  ∧ (∀ w lm, conforms Window w = true →
             get w "LanguageModel" = Some lm →
             lm = VUndef ∨ conforms LanguageModelType lm = true)
  ∧ (∀ lm, conforms LanguageModelType lm = true →
           get lm "availability" = Some VFun ∧ get lm "create" = Some VFun).
Proof.
  split_and!; try reflexivity.
  - intros c m Hm. unfold Window, get.
    rewrite conforms_interface, Hm. cbn [forallb].
    rewrite andb_true_r, field_ok_optional. auto.
  - intros w lm H Hget.
    destruct (conforms_object_inv _ _ _ _ H) as (c & m & ->).
    unfold Window in H. rewrite conforms_interface in H. cbn [forallb] in H.
    rewrite andb_true_r, field_ok_optional in H.
    unfold get in Hget. injection Hget as <-.
    destruct H as [->|(x & -> & H)]; [by left|exact H].
  - intros lm H.
    destruct (conforms_object_inv _ _ _ _ H) as (c & m & ->).
    unfold LanguageModelType in H. rewrite conforms_interface in H.
    cbn [forallb] in H. rewrite !andb_true_iff, !field_ok_mandatory in H.
    destruct H as ((f & Hf & Hfun) & (g & Hg & Hgun) & _).
    unfold get. rewrite Hf, Hg.
    destruct f; try discriminate. destruct g; try discriminate. done.
Qed.

End Claims.

(** ** Worked examples, on the [platform] table *)

Ltac evaluate := vm_compute; reflexivity.

(** The calls of the usage example are accepted, and its constraint and
    options are valid. *)
Example example_simple_prompt :
  accepts_call platform prompt [ VStr "Hello, how are you?" ] = true.
Proof. evaluate. Qed.

Example example_structured_prompt :
  accepts_call platform prompt
    [ VArr [ obj [ ("role", VStr "system");
                   ("content", obj [ ("type", VStr "text");
                                     ("value", VStr "You are a helpful assistant.") ]) ];
             hi_message ] ] = true.
Proof. evaluate. Qed.

Example example_image_content :
  conforms platform PromptMessageContent
    (obj [ ("type", VStr "image"); ("value", VObj "HTMLImageElement" ∅) ]) = true
  ∧ conforms platform PromptMessageContent
      (obj [ ("type", VStr "text"); ("value", VObj "HTMLImageElement" ∅) ]) = false
  ∧ conforms platform PromptMessageContent
      (obj [ ("type", VStr "audio"); ("value", VObj "ArrayBuffer" ∅) ]) = true.
Proof. split_and!; evaluate. Qed.

Example example_constrained_prompt :
  conforms platform PromptResponseConstraint person_constraint = true
  ∧ conforms platform PromptPayloadOptions person_options = true
  ∧ accepts_call platform prompt
      [ VStr "Generate a person object with name and age"; person_options ] = true.
Proof. split_and!; evaluate. Qed.

Example example_no_arguments :
  accepts_call platform prompt [] = false
  ∧ accepts_call platform create [] = true.
Proof. split_and!; evaluate. Qed.

(** The quota-exceeded signal of the scenario matches the declared
    shape. *)
Lemma quota_signal_matches :
  platform "DOMException" "DOMException" = true
  ∧ conforms platform QuotaExceededError quota_signal = true.
Proof.
  split; [evaluate|].
  destruct (quota_exceeded_shape platform) as (_ & _ & H & _).
  apply H; evaluate.
Defined.

(** Substituting the role narrator makes the message invalid. *)
Lemma narrator_message_rejected :
  conforms platform ExpandedPromptPayload narrator_message = false.
Proof.
  destruct (message_role_closed platform) as (_ & _ & H).
  apply (H "Object" _ (VStr "narrator")); [evaluate|].
  intros s Hs [= <-]. revert Hs.
  apply (bool_decide_eq_false_1 ("narrator" ∈ [ "system"; "user"; "assistant" ])).
  evaluate.
Defined.

(** A constraint without [required] is rejected. *)
Lemma constraint_without_required_rejected :
  conforms platform PromptResponseConstraint constraint_without_required = false.
Proof.
  apply (response_constraint_mandatory platform "Object" _ "required").
  - member_here.
  - evaluate.
Defined.

(** A constraint given without the omission flag is rejected. *)
Lemma constraint_only_options_rejected :
  conforms platform PromptPayloadOptions constraint_only_options = false.
Proof.
  destruct (payload_options_mandatory platform) as (_ & _ & H).
  apply H. evaluate.
Defined.

(** Dropping [tools] from a valid bundle that also sets [topK] keeps it
    valid. *)
Lemma create_options_without_tools :
  valid platform CreateOptions
    (VObj "Object" (delete "tools" (list_to_map [ ("tools", VArr []); ("topK", VNum 40) ])))
  = true.
Proof.
  destruct (create_options_all_optional platform) as (_ & _ & H & _).
  apply H; [evaluate|].
  right. exists "topK". split; [solve [member_here]|].
  exists (VNum 40). evaluate.
Defined.

(** An options object that holds only the streaming flag is refused by
    [promptStreaming]. *)
Lemma streaming_call_options :
  accepts_call platform promptStreaming
    [ VStr "Tell me a story"; VObj "Object" (<["stream" := VBool true]> ∅) ] = false.
Proof.
  destruct (request_options_shape platform) as (_ & _ & H).
  apply (H promptStreaming); [solve [member_here]|].
  intros k [x Hk]. destruct (decide (k = "stream")) as [->|Hne].
  - solve [member_here].
  - rewrite lookup_insert_ne, lookup_empty in Hk by done. discriminate Hk.
Defined.

(** A value of the request-configuration shape is refused as the options
    of a per-request call. *)
Lemma request_options_refused :
  conforms platform LanguageModelOptions streaming_options = true
  ∧ accepts_call platform prompt [ VStr "Tell me a story"; streaming_options ] = false
  ∧ accepts_call platform promptStreaming [ VStr "Tell me a story"; streaming_options ] = false
  ∧ accepts_call platform measureInputUsage [ VStr "Tell me a story"; streaming_options ] = false.
Proof. split_and!; evaluate. Qed.

(** On a window without the capability object, [LanguageModel] reads as
    [undefined]. *)
Lemma bare_window_valid :
  conforms platform Window bare_window = true
  ∧ get bare_window "LanguageModel" = Some VUndef.
Proof.
  destruct (window_language_model_optional platform) as (H & _).
  apply H. evaluate.
Defined.

(** ** Beyond the claims: the remaining declarations *)

Section Coverage.

Variable implements : string → string → bool.

Local Abbreviation conforms := (conforms implements).
Local Abbreviation accepts_call := (accepts_call implements).
Local Abbreviation optional_member := (optional_member implements).

(** An index signature constrains the value of every property. *)
Lemma index_ok t (m : gmap string JSVal) :
  forallb (conforms t) (map snd (map_to_list m)) = true
  ↔ ∀ k x, m !! k = Some x → conforms t x = true.
Proof.
  rewrite forallb_forall. split.
  - intros H k x Hk. apply H. apply in_map_iff. exists (k, x).
    split; [done|]. apply list_elem_of_In. by apply elem_of_map_to_list.
  - intros H x (kx & <- & Hin)%in_map_iff. destruct kx as [k x].
    apply list_elem_of_In, elem_of_map_to_list in Hin. by eapply H.
Qed.

Lemma strings_conform l :
  Forall (λ x, conforms TString x = true) l ↔ Forall (λ x, ∃ s, x = VStr s) l.
Proof. apply Forall_iff. intros x. apply conforms_string. Qed.

Lemma constraint_property_conforms c m :
  conforms PromptResponseConstraintProperty (VObj c m) = true
  ↔ (∃ s, m !! "type" = Some (VStr s)) ∧ optional_member m "description" TString.
Proof.
  unfold PromptResponseConstraintProperty, optional_member.
  rewrite conforms_object. cbn [forallb].
  replace (forallb (conforms TAny) (map snd (map_to_list m))) with true
    by (symmetry; by apply index_ok).
  rewrite !andb_true_r, andb_true_iff, field_ok_mandatory, field_ok_optional.
  setoid_rewrite conforms_string. naive_solver.
Qed.

Lemma response_constraint_conforms v :
  conforms PromptResponseConstraint v = true
  ↔ ∃ c m t req ap pc pm, v = VObj c m
      ∧ m !! "type" = Some (VStr t)
      ∧ m !! "required" = Some (VArr req)
      ∧ Forall (λ x, ∃ s, x = VStr s) req
      ∧ m !! "additionalProperties" = Some (VBool ap)
      ∧ m !! "properties" = Some (VObj pc pm)
      ∧ ∀ k x, pm !! k = Some x →
               conforms PromptResponseConstraintProperty x = true.
Proof.
  unfold PromptResponseConstraint. split.
  - intros H. destruct (conforms_object_inv _ _ _ _ H) as (c & m & ->).
    rewrite conforms_interface in H. cbn [forallb] in H.
    rewrite !andb_true_iff, !field_ok_mandatory in H.
    destruct H as ((t & Ht & Hts) & (req & Hreq & Hreqs) & (ap & Hap & Haps)
                   & (ps & Hps & Hpss) & _).
    apply conforms_string in Hts as [t' ->].
    apply conforms_array in Hreqs as (l & -> & Hl).
    apply conforms_boolean in Haps as [b ->].
    destruct (conforms_object_inv _ _ _ _ Hpss) as (pc & pm & ->).
    rewrite conforms_object in Hpss. cbn [forallb andb] in Hpss.
    exists c, m, t', l, b, pc, pm. split_and!; try done.
    + by apply strings_conform.
    + by apply index_ok.
  - intros (c & m & t & req & ap & pc & pm & -> & Ht & Hreq & Hreqs & Hap & Hps & Hpss).
    rewrite conforms_interface. cbn [forallb].
    rewrite !andb_true_iff, !field_ok_mandatory. split_and!; try done.
    + by exists (VStr t).
    + exists (VArr req). split; [done|]. apply conforms_array.
      exists req. split; [done|]. by apply strings_conform.
    + by exists (VBool ap).
    + exists (VObj pc pm). split; [done|]. rewrite conforms_object.
      cbn [forallb andb]. by apply index_ok.
Qed.

(** X3. The declared shape does not tie [required] to [properties]: in a
    valid constraint the required names can be replaced by any strings and
    the properties by any valid schemas, each without regard to the
    other. *)
Theorem required_not_tied_to_properties c m req pc pm :
  conforms PromptResponseConstraint (VObj c m) = true →
  Forall (λ x, ∃ s, x = VStr s) req →
  (∀ k x, pm !! k = Some x →
          conforms PromptResponseConstraintProperty x = true) →
  conforms PromptResponseConstraint
    (VObj c (<["required" := VArr req]> (<["properties" := VObj pc pm]> m))) = true.
Proof.
  intros H Hreq Hpm.
  apply response_constraint_conforms in H
    as (c' & m' & t & _ & ap & _ & _ & [= <- <-] & Ht & _ & _ & Hap & _ & _).
  apply response_constraint_conforms.
  exists c, (<["required" := VArr req]> (<["properties" := VObj pc pm]> m)),
    t, req, ap, pc, pm.
  split_and!; try done; by simplify_map_eq.
Qed.

(** A union of string literals holds exactly those strings. *)
Lemma literal_union l v :
  conforms (TUnion (TLit <$> l)) v = true ↔ ∃ s, s ∈ l ∧ v = VStr s.
Proof.
  rewrite conforms_union. induction l as [|a l IH]; cbn [fmap list_fmap existsb].
  - split; [discriminate|]. by intros (s & Hs%elem_of_nil & _).
  - rewrite orb_true_iff, conforms_lit, IH. setoid_rewrite elem_of_cons.
    naive_solver.
Qed.

(** X4. An expected input or output names one of the content kinds that
    prompt content declares (text, image, audio) and may list languages as
    strings; nothing else is asked of it. *)
Theorem expected_kinds_are_content_kinds c m :
  conforms ExpectedInputOrOutput (VObj c m) = true
  ↔ (∃ s, s ∈ declared_kinds PromptMessageContent ∧ m !! "type" = Some (VStr s))
    ∧ optional_member m "languages" (TArray TString).
Proof.
  unfold ExpectedInputOrOutput, optional_member.
  rewrite conforms_interface. cbn [forallb].
  rewrite andb_true_r, andb_true_iff, field_ok_mandatory, field_ok_optional.
  change (TUnion [ TLit "text"; TLit "image"; TLit "audio" ])
    with (TUnion (TLit <$> declared_kinds PromptMessageContent)).
  setoid_rewrite literal_union. naive_solver.
Qed.

Lemma inputSchema_declared :
  inputSchema
  = TInterface
      [ ("type", false, TUnion (TLit <$> schema_types));
        ("properties", false,
          TObject []
            (Some (TInterface
                     [ ("type", false, TUnion (TLit <$> schema_types));
                       ("description", false, TString) ])));
        ("required", false, TArray TString) ].
Proof. reflexivity. Qed.

Lemma schema_property_conforms x :
  conforms (TInterface [ ("type", false, TUnion (TLit <$> schema_types));
                         ("description", false, TString) ]) x = true
  ↔ ∃ c m t d, x = VObj c m
      ∧ t ∈ schema_types
      ∧ m !! "type" = Some (VStr t)
      ∧ m !! "description" = Some (VStr d).
Proof.
  split.
  - intros H. destruct (conforms_object_inv _ _ _ _ H) as (c & m & ->).
    rewrite conforms_interface in H. cbn [forallb] in H.
    rewrite !andb_true_iff, !field_ok_mandatory in H.
    destruct H as ((t & Ht & Hts) & (d & Hd & Hds) & _).
    apply literal_union in Hts as (t' & Hin & ->).
    apply conforms_string in Hds as [d' ->]. by exists c, m, t', d'.
  - intros (c & m & t & d & -> & Hin & Ht & Hd).
    rewrite conforms_interface. cbn [forallb].
    rewrite !andb_true_iff, !field_ok_mandatory. split_and!; try done.
    + exists (VStr t). split; [done|]. apply literal_union. eauto.
    + by exists (VStr d).
Qed.

Lemma input_schema_conforms v :
  conforms inputSchema v = true
  ↔ ∃ c m t req pc pm, v = VObj c m
      ∧ t ∈ schema_types
      ∧ m !! "type" = Some (VStr t)
      ∧ m !! "properties" = Some (VObj pc pm)
      ∧ (∀ k x, pm !! k = Some x →
           ∃ c' m' t' d, x = VObj c' m'
             ∧ t' ∈ schema_types
             ∧ m' !! "type" = Some (VStr t')
             ∧ m' !! "description" = Some (VStr d))
      ∧ m !! "required" = Some (VArr req)
      ∧ Forall (λ x, ∃ s, x = VStr s) req.
Proof.
  rewrite inputSchema_declared. split.
  - intros H. destruct (conforms_object_inv _ _ _ _ H) as (c & m & ->).
    rewrite conforms_interface in H. cbn [forallb] in H.
    rewrite !andb_true_iff, !field_ok_mandatory in H.
    destruct H as ((t & Ht & Hts) & (ps & Hps & Hpss) & (req & Hreq & Hreqs) & _).
    apply literal_union in Hts as (t' & Hin & ->).
    apply conforms_array in Hreqs as (l & -> & Hl).
    destruct (conforms_object_inv _ _ _ _ Hpss) as (pc & pm & ->).
    rewrite conforms_object in Hpss. cbn [forallb andb] in Hpss.
    exists c, m, t', l, pc, pm. split_and!; try done.
    + intros k x Hk. apply schema_property_conforms.
      by eapply (proj1 (index_ok _ _) Hpss).
    + by apply strings_conform.
  - intros (c & m & t & req & pc & pm & -> & Hin & Ht & Hps & Hpss & Hreq & Hreqs).
    rewrite conforms_interface. cbn [forallb].
    rewrite !andb_true_iff, !field_ok_mandatory. split_and!; try done.
    + exists (VStr t). split; [done|]. apply literal_union. eauto.
    + exists (VObj pc pm). split; [done|]. rewrite conforms_object.
      cbn [forallb andb]. apply index_ok. intros k x Hk.
      apply schema_property_conforms. by eapply Hpss.
    + exists (VArr req). split; [done|]. apply conforms_array.
      exists req. split; [done|]. by apply strings_conform.
Qed.

(** X7. The input schema of a tool becomes a valid response constraint as
    soon as it is given an [additionalProperties] flag. *)
Theorem input_schema_is_constraint c m b :
  conforms inputSchema (VObj c m) = true →
  conforms PromptResponseConstraint
    (VObj c (<["additionalProperties" := VBool b]> m)) = true.
Proof.
  intros (c' & m' & t & req & pc & pm & [= <- <-] & _ & Ht & Hps & Hpss & Hreq & Hreqs)
    %input_schema_conforms.
  apply response_constraint_conforms.
  exists c, (<["additionalProperties" := VBool b]> m), t, req, b, pc, pm.
  split_and!; try done; try by simplify_map_eq.
  intros k x Hk. destruct (Hpss k x Hk) as (c' & m' & t' & d & -> & _ & Ht' & Hd).
  apply constraint_property_conforms. split; [eauto|].
  right. exists (VStr d). split; [done|]. right. done.
Qed.

Lemma conforms_function ps r x : conforms (TFun ps r) x = true ↔ x = VFun.
Proof. destruct x; cbn; split; try discriminate; done. Qed.

(** X9. A listener is removed with exactly the arguments it was added
    with: an event name and a callback, both required.  [dispatchEvent]
    needs an event name and a data argument; the data may be any value,
    [undefined] included, but may not be left out. *)
Theorem event_contract :
  (∀ args, accepts_call removeEventListener args = accepts_call addEventListener args)
  ∧ (∀ args, accepts_call addEventListener args = true
       ↔ ∃ e, args = [ VStr e; VFun ])
  ∧ (∀ args, accepts_call dispatchEvent args = true
       ↔ ∃ e d, args = [ VStr e; d ]).
Proof.
  split_and!.
  - done.
  - change addEventListener
      with (TFun [ ("event", false, TString);
                   ("callback", false, TFun [ ("event", false, TAny) ] TVoid) ]
              TVoid).
    unfold accepts_call.
    intros [|e [|f [|x rest]]];
      cbn [accepts_args mtype moptional fst snd andb orb].
    + split; [discriminate | by intros [? [=]]].
    + rewrite andb_false_r. split; [discriminate | by intros [? [=]]].
    + rewrite !orb_false_r, andb_true_r, andb_true_iff,
        conforms_string, conforms_function.
      split; [intros [[s ->] ->]; eauto | intros [s [= -> ->]]; eauto].
    + rewrite !andb_false_r. split; [discriminate | by intros [? [=]]].
  - change dispatchEvent
      with (TFun [ ("event", false, TString); ("data", false, TAny) ] TVoid).
    unfold accepts_call.
    intros [|e [|d [|x rest]]];
      cbn [accepts_args mtype moptional fst snd andb orb].
    + split; [discriminate | by intros (? & ? & [=])].
    + rewrite andb_false_r. split; [discriminate | by intros (? & ? & [=])].
    + change (conforms TAny d) with true.
      rewrite ?orb_false_r, ?andb_true_r, conforms_string.
      split; [intros [s ->]; eauto | intros (s & d' & [= -> ->]); eauto].
    + rewrite !andb_false_r. split; [discriminate | by intros (? & ? & [=])].
Qed.

Lemma payload_list l :
  conforms PromptPayload (VArr l) = true
  ↔ Forall (λ x, conforms ExpandedPromptPayload x = true) l.
Proof.
  rewrite payload_shape. split.
  - intros [[s [=]]|(msgs & [= <-] & H)]. done.
  - intros H. right. by exists l.
Qed.

Lemma payload_string s : conforms PromptPayload (VStr s) = true.
Proof. apply payload_shape. left. by exists s. Qed.

Lemma session_operation_declared op :
  op ∈ [ prompt; promptStreaming; measureInputUsage ] →
  ∃ r, op = TFun [ ("payload", false, PromptPayload);
                   ("options", true, PromptPayloadOptions) ] r.
Proof.
  rewrite !elem_of_cons.
  intros [->|[->|[->|Hop]]]; [by eexists ..|]. by apply elem_of_nil in Hop.
Qed.

(** X11. What a session answers can be sent back to it: the text that
    [prompt] resolves to, and every chunk that [promptStreaming] yields, is
    accepted as the payload of the session operations. *)
Theorem response_is_payload :
  (∀ r, conforms (result_type prompt) (VPromise r) = true →
        accepts_call prompt [r] = true
        ∧ accepts_call promptStreaming [r] = true
        ∧ accepts_call measureInputUsage [r] = true)
  ∧ (∀ l, conforms (result_type promptStreaming) (VAsyncIter l) = true →
          Forall (λ x, accepts_call prompt [x] = true) l).
Proof.
  rewrite prompt_declared, promptStreaming_declared, measureInputUsage_declared.
  cbn [result_type]. split.
  - intros r (x & [= <-] & [s ->]%conforms_string)%conforms_promise.
    rewrite !session_call_args.
    split_and!; exists (VStr s); (split; [apply payload_string | by left]).
  - intros l (l' & [= <-] & H)%conforms_async_iterable.
    eapply Forall_impl; [exact H|]. intros x [s ->]%conforms_string.
    apply session_call_args.
    exists (VStr s). split; [apply payload_string | by left].
Qed.

(** X13. Each element of [initialPrompts] is a whole payload, a string or
    a list of messages: every one of them is accepted by [prompt], and a
    single message object is never an element of a valid bundle's
    [initialPrompts]. *)
Theorem initial_prompts_are_payloads c m l :
  m !! "initialPrompts" = Some (VArr l) →
  conforms CreateOptions (VObj c m) = true →
  Forall (λ p, accepts_call prompt [p] = true) l
  ∧ ∀ c' m', VObj c' m' ∉ l.
Proof.
  intros Hl H. unfold CreateOptions in H.
  rewrite conforms_interface in H. cbn [forallb] in H.
  rewrite !andb_true_iff, !field_ok_optional in H.
  destruct H as (_ & _ & [H|(x & Hx & H)] & _); [congruence|].
  rewrite Hl in Hx. injection Hx as <-.
  destruct H as [[=]|(l' & [= <-] & H)%conforms_array].
  split.
  - eapply Forall_impl; [exact H|]. intros p Hp. rewrite prompt_declared.
    apply session_call_args. exists p. split; [done | by left].
  - intros c' m' Hin. rewrite Forall_forall in H.
    apply H, payload_shape in Hin. by destruct Hin as [[s [=]]|(msgs & [=] & _)].
Qed.

(** X14. One invalid message spoils the call: a session operation rejects
    every argument list whose payload is a list holding a message that is
    not valid. *)
Theorem invalid_message_rejects_call op l x rest :
  op ∈ [ prompt; promptStreaming; measureInputUsage ] →
  x ∈ l →
  conforms ExpandedPromptPayload x = false →
  accepts_call op (VArr l :: rest) = false.
Proof.
  intros [r ->]%session_operation_declared Hin Hx.
  apply not_true_is_false.
  intros (p & Hp & Hargs)%session_call_args.
  assert (p = VArr l) as ->.
  { by destruct Hargs as [[= <- ->]|(o & [= <- ->] & _)]. }
  apply payload_list in Hp. rewrite Forall_forall in Hp.
  specialize (Hp x Hin). congruence.
Qed.

Lemma host_value_is_object hosts x :
  conforms (TUnion (THost <$> hosts)) x = true → ∃ c m, x = VObj c m.
Proof.
  rewrite conforms_union.
  intros (t & (i & -> & _)%list_elem_of_In%list_elem_of_fmap & Ht)%existsb_exists.
  destruct x; try discriminate. eauto.
Qed.

Lemma content_mismatch c m kind x :
  m !! "type" = Some (VStr kind) →
  m !! "value" = Some x →
  (kind = "text" ∧ ∀ s, x ≠ VStr s)
  ∨ (kind ≠ "text" ∧ ∀ c' m', x ≠ VObj c' m') →
  conforms PromptMessageContent (VObj c m) = false.
Proof.
  intros Hk Hx Hbad. apply not_true_is_false.
  unfold PromptMessageContent. rewrite conforms_union. cbn [existsb].
  rewrite !orb_true_iff, !content_alternative.
  intros [H|[H|[H|[=]]]];
    destruct H as (c' & m' & x' & [= <- <-] & Hk' & Hx' & Ht);
    rewrite Hk in Hk'; injection Hk' as ->;
    rewrite Hx in Hx'; injection Hx' as <-.
  - apply conforms_string in Ht as [s ->]. naive_solver.
  - apply (host_value_is_object
             [ "Blob"; "ImageData"; "ImageBitmap"; "VideoFrame";
               "OffscreenCanvas"; "HTMLImageElement"; "SVGImageElement";
               "HTMLCanvasElement"; "HTMLVideoElement"; "BufferSource";
               "ArrayBuffer" ]) in Ht as (c' & m' & ->).
    naive_solver.
  - apply (host_value_is_object [ "Blob"; "AudioBuffer"; "BufferSource" ])
      in Ht as (c' & m' & ->).
    naive_solver.
Qed.

(** X15. The tag and the value of prompt content must agree: text whose
    value is not a string is rejected, and content of any other kind whose
    value is not an object is rejected, whatever the platform. *)
Theorem content_tag_value_mismatch c m kind x :
  m !! "type" = Some (VStr kind) →
  m !! "value" = Some x →
  (kind = "text" ∧ ∀ s, x ≠ VStr s)
  ∨ (kind ≠ "text" ∧ ∀ c' m', x ≠ VObj c' m') →
  conforms PromptMessageContent (VObj c m) = false.
Proof. apply content_mismatch. Qed.

Lemma example_window_capability w :
  conforms ExampleWindow w = true →
  conforms Window w = true
  ∧ ∃ lm, get w "LanguageModel" = Some lm
      ∧ conforms LanguageModelType lm = true
      ∧ get lm "availability" = Some VFun
      ∧ get lm "create" = Some VFun.
Proof.
  intros H. destruct (conforms_object_inv _ _ _ _ H) as (c & m & ->).
  unfold ExampleWindow in H. rewrite conforms_interface in H.
  cbn [forallb] in H. rewrite andb_true_r, field_ok_mandatory in H.
  destruct H as (lm & Hlm & H). split.
  - unfold Window. rewrite conforms_interface. cbn [forallb].
    rewrite andb_true_r, field_ok_optional. right. exists lm. auto.
  - exists lm. unfold get at 1. rewrite Hlm. split; [done|]. split; [done|].
    destruct (conforms_object_inv _ _ _ _ H) as (c' & m' & ->).
    unfold LanguageModelType in H. rewrite conforms_interface in H.
    cbn [forallb] in H. rewrite !andb_true_iff, !field_ok_mandatory in H.
    destruct H as ((f & Hf & ->%conforms_function)
                   & (g & Hg & ->%conforms_function) & _).
    unfold get. by rewrite Hf, Hg.
Qed.

(** X16. The usage example declares [LanguageModel] on its window as
    mandatory.  A window valid for that declaration is valid for the
    package's optional one, and holds a capability object from which
    [availability] and [create] can be called. *)
Theorem example_window_refines w :
  conforms ExampleWindow w = true →
  conforms Window w = true
  ∧ ∃ lm, get w "LanguageModel" = Some lm
      ∧ conforms LanguageModelType lm = true
      ∧ get lm "availability" = Some VFun
      ∧ get lm "create" = Some VFun.
Proof. apply example_window_capability. Qed.

(** *** The usage examples *)

Lemma run_read {B} v k x (f : JSVal → Run B) :
  get v k = Some x → (read v k ≫= f) = f x.
Proof.
  intros H. unfold read, mbind, run_bind. cbn [fst snd]. rewrite H.
  by destruct (f x).
Qed.

Lemma run_invoke {B} recv name args res (f : JSVal → Run B) :
  get recv name = Some VFun →
  (invoke recv name args res ≫= f)
  = match res with
    | Some x => (Call name args :: (f x).1, (f x).2)
    | None => ([ Call name args ], None)
    end.
Proof. intros H. unfold invoke, mbind, run_bind. rewrite H. by destruct res. Qed.

Lemma run_invoke_throw {B} recv name args res (f : JSVal → Run B) :
  get recv name ≠ Some VFun →
  (invoke recv name args res ≫= f) = ([], None).
Proof.
  intros H. unfold invoke, mbind, run_bind.
  by destruct (get recv name) as [[]|].
Qed.

Lemma equals_literal_true v s : equals_literal v s = true ↔ v = VStr s.
Proof.
  destruct v; cbn; try (split; [discriminate | by intros [=]]).
  rewrite bool_decide_eq_true. split; [by intros -> | by intros [= ->]].
Qed.

Lemma session_prompt_callable s :
  conforms LanguageModelSession s = true → get s "prompt" = Some VFun.
Proof.
  intros H. destruct (conforms_object_inv _ _ _ _ H) as (c & m & ->).
  unfold LanguageModelSession, TInterface in H.
  eapply object_mandatory in H; [|apply list_elem_of_here].
  destruct H as (f & Hf & ->%conforms_function). unfold get. by rewrite Hf.
Qed.

(** X17. On a host whose window is valid for the example's declaration and
    whose created session, if there is one, is a valid session, no example
    throws a [TypeError]: a run fails only where the host rejects a call,
    and then right after that call.  Each example asks for the
    availability first; it makes no further call unless the answer is
    available, and then creates a session and prompts it once. *)
Theorem examples_fail_only_on_rejection h ex :
  ex ∈ [ exampleWithTools; exampleWithConstraints; exampleWithImage ] →
  conforms ExampleWindow (host_window h) = true →
  (∀ s, host_session h = Some s → conforms LanguageModelSession s = true) →
  (host_status h = None → ex h = ([ Call "availability" [] ], None))
  ∧ (∀ st, host_status h = Some st → st ≠ VStr "available" →
           ex h = ([ Call "availability" [] ], Some tt))
  ∧ (host_status h = Some (VStr "available") → host_session h = None →
     ∃ a, ex h = ([ Call "availability" []; Call "create" a ], None))
  ∧ (host_status h = Some (VStr "available") → is_Some (host_session h) →
     ∃ a p, ex h = ([ Call "availability" []; Call "create" a; Call "prompt" p ],
                    (λ _, tt) <$> host_answer h)).
Proof.
  intros Hex (_ & lm & Hlm & _ & Hav & Hcr)%example_window_capability Hs.
  rewrite !elem_of_cons in Hex.
  destruct Hex as [->|[->|[->|Hex]]]; [| | |by apply elem_of_nil in Hex].
  all: unfold exampleWithTools, exampleWithConstraints, exampleWithImage.
  all: rewrite (run_read _ _ _ _ Hlm), (run_invoke _ _ _ _ _ Hav).
  all: split_and!.
  all: try (intros ->; reflexivity).
  all: try (intros st -> Hne; cbn [fst snd];
            destruct (equals_literal st "available") eqn:E;
            [by apply equals_literal_true in E | reflexivity]).
  all: try (intros -> Hnone; cbn [fst snd];
            change (equals_literal (VStr "available") "available") with true;
            cbn match; rewrite (run_invoke _ _ _ _ _ Hcr), Hnone;
            eexists; reflexivity).
  all: intros -> [s Hsome]; cbn [fst snd];
    change (equals_literal (VStr "available") "available") with true;
    cbn match; rewrite (run_invoke _ _ _ _ _ Hcr), Hsome;
    cbn [fst snd];
    rewrite (run_invoke _ _ _ _ _ (session_prompt_callable _ (Hs s Hsome)));
    destruct (host_answer h); eexists _, _; reflexivity.
Qed.

(** X18. On a window that lacks [LanguageModel], which the package's own
    declaration allows, each of the three examples throws a [TypeError]
    before it makes any call. *)
Theorem examples_throw_without_capability h ex :
  ex ∈ [ exampleWithTools; exampleWithConstraints; exampleWithImage ] →
  (∃ c m, host_window h = VObj c m ∧ m !! "LanguageModel" = None) →
  conforms Window (host_window h) = true ∧ ex h = ([], None).
Proof.
  intros Hex (c & m & Hw & Hm). split.
  - rewrite Hw. unfold Window. rewrite conforms_interface. cbn [forallb].
    rewrite andb_true_r, field_ok_optional. by left.
  - assert (get (host_window h) "LanguageModel" = Some VUndef) as Hlm.
    { rewrite Hw. unfold get. by rewrite Hm. }
    rewrite !elem_of_cons in Hex.
    destruct Hex as [->|[->|[->|Hex]]]; [| | |by apply elem_of_nil in Hex].
    all: unfold exampleWithTools, exampleWithConstraints, exampleWithImage.
    all: rewrite (run_read _ _ _ _ Hlm).
    all: by apply run_invoke_throw.
Qed.

(** The calls of a run, taken step by step. *)
Lemma trace_read {B} (P : HostCall → Prop) v k (f : JSVal → Run B) :
  (∀ x, Forall P (f x).1) → Forall P (read v k ≫= f).1.
Proof.
  intros H. unfold read, mbind, run_bind. cbn [fst snd].
  destruct (get v k) as [x|]; cbn [fst]; [apply H | constructor].
Qed.

Lemma trace_invoke {B} (P : HostCall → Prop) recv name args res (f : JSVal → Run B) :
  P (Call name args) → (∀ x, Forall P (f x).1) →
  Forall P (invoke recv name args res ≫= f).1.
Proof.
  intros Hc Hf. unfold invoke, mbind, run_bind.
  destruct (get recv name) as [[]|]; cbn [fst snd app]; try constructor.
  destruct res as [x|]; cbn [fst snd app]; constructor; [done|apply Hf|done|constructor].
Qed.

Lemma image_message_valid c m :
  implements c "HTMLImageElement" = true →
  conforms ExpandedPromptPayload
    (obj [ ("role", VStr "user");
           ("content", obj [ ("type", VStr "image"); ("value", VObj c m) ]) ]) = true.
Proof.
  intros Hc. unfold ExpandedPromptPayload, obj.
  rewrite conforms_interface. cbn [forallb].
  rewrite !andb_true_iff, !field_ok_mandatory. split_and!; [| |done].
  - exists (VStr "user"). split; [by vm_compute|]. by vm_compute.
  - eexists. split; [by vm_compute|].
    unfold PromptMessageContent. rewrite conforms_union. cbn [existsb].
    rewrite !orb_true_iff. right; left. apply content_alternative.
    eexists _, _, (VObj c m). split_and!; [done|by vm_compute|by vm_compute|].
    rewrite conforms_union. apply existsb_exists.
    exists (THost "HTMLImageElement"). split; [|exact Hc].
    apply list_elem_of_In. solve [member_here].
Qed.

(** X19. Every call the examples make is accepted by the declared type of
    its operation, however far the run gets; for the image example this
    holds when the element found in the document is an
    [HTMLImageElement]. *)
Theorem example_calls_well_typed h :
  Forall (λ c, well_typed implements c = true) (exampleWithTools h).1
  ∧ Forall (λ c, well_typed implements c = true) (exampleWithConstraints h).1
  ∧ ((∃ c m, host_element h = VObj c m
            ∧ implements c "HTMLImageElement" = true) →
     Forall (λ c, well_typed implements c = true) (exampleWithImage h).1).
Proof.
  split_and!; [| |intros (c & m & Hel & Hc)].
  all: unfold exampleWithTools, exampleWithConstraints, exampleWithImage.
  all: apply trace_read; intros model.
  all: apply trace_invoke; [by vm_compute|]; intros available.
  all: destruct (equals_literal available "available"); [|constructor].
  all: apply trace_invoke; [by vm_compute|]; intros session.
  all: apply trace_invoke; [|intros response; constructor].
  - by vm_compute.
  - by vm_compute.
  - rewrite Hel. unfold well_typed.
    change (signature "prompt")
      with (TFun [ ("payload", false, PromptPayload);
                   ("options", true, PromptPayloadOptions) ]
              (TPromise LanguageModelPromptResponse)).
    apply session_call_args. eexists. split; [|by left].
    apply payload_list.
    apply Forall_cons. split; [by vm_compute|].
    apply Forall_cons. split; [|by apply Forall_nil].
    by apply image_message_valid.
Qed.

Lemma image_prompt_ill_typed x :
  (∀ c m, x ≠ VObj c m) →
  well_typed implements
    (Call "prompt"
       [ VArr [ obj [ ("role", VStr "user");
                      ("content",
                        obj [ ("type", VStr "text");
                              ("value", VStr "What do you see in this image?") ]) ];
                obj [ ("role", VStr "user");
                      ("content",
                        obj [ ("type", VStr "image"); ("value", x) ]) ] ] ])
  = false.
Proof.
  intros Hx. apply not_true_is_false. unfold well_typed.
  change (signature "prompt")
    with (TFun [ ("payload", false, PromptPayload);
                 ("options", true, PromptPayloadOptions) ]
            (TPromise LanguageModelPromptResponse)).
  intros (p & Hp & Hargs)%session_call_args.
  destruct Hargs as [[= <-]|(o & [=] & _)].
  apply payload_list in Hp.
  apply Forall_cons in Hp as [_ Hp]. apply Forall_cons in Hp as [Hp _].
  unfold ExpandedPromptPayload, TInterface, obj in Hp.
  eapply object_mandatory in Hp;
    [|apply list_elem_of_further, list_elem_of_here].
  destruct Hp as (y & Hy & Hc).
  assert (y = obj [ ("type", VStr "image"); ("value", x) ]) as ->.
  { vm_compute in Hy. by injection Hy as <-. }
  unfold obj in Hc. rewrite content_mismatch with (kind := "image") (x := x) in Hc;
    [done|by vm_compute|by vm_compute|].
  right. split; [done|exact Hx].
Qed.

(** X20. The cast in the image example hides what the document lookup
    returned.  When that is not an object, [null] for a missing element,
    every [prompt] call the example makes carries a payload that the
    declared type does not accept; and on a host with a valid window that
    answers available and creates a valid session the example does make
    that call, whether the host then fulfils or rejects it. *)
Theorem image_example_unchecked_element h :
  (∀ c m, host_element h ≠ VObj c m) →
  Forall (λ call, ∀ args, call = Call "prompt" args →
                          well_typed implements call = false)
    (exampleWithImage h).1
  ∧ (conforms ExampleWindow (host_window h) = true →
     host_status h = Some (VStr "available") →
     (∃ s, host_session h = Some s
           ∧ conforms LanguageModelSession s = true) →
     ∃ a p, (exampleWithImage h).1
            = [ Call "availability" []; Call "create" a; Call "prompt" p ]).
Proof.
  intros Hel. unfold exampleWithImage. split.
  - apply trace_read; intros model.
    apply trace_invoke; [intros args H; discriminate H|]. intros available.
    destruct (equals_literal available "available"); [|constructor].
    apply trace_invoke; [intros args H; discriminate H|]. intros session.
    apply trace_invoke; [|intros response; constructor].
    intros args _. by apply image_prompt_ill_typed.
  - intros (_ & lm & Hlm & _ & Hav & Hcr)%example_window_capability
      Hst (s & Hs & Hpr%session_prompt_callable).
    rewrite (run_read _ _ _ _ Hlm), (run_invoke _ _ _ _ _ Hav), Hst.
    change (equals_literal (VStr "available") "available") with true.
    cbn match.
    rewrite (run_invoke _ _ _ _ _ Hcr), Hs. cbn [fst snd].
    rewrite (run_invoke _ _ _ _ _ Hpr).
    destruct (host_answer h); eexists _, _; reflexivity.
Qed.

End Coverage.

(** ** Worked examples for the remaining declarations *)

Lemma required_not_tied_example :
  conforms platform PromptResponseConstraint
    (VObj "Object"
       (<["required" := VArr [ VStr "nickname" ]]>
          (<["properties" := VObj "Object" ∅]> loose_constraint))) = true.
Proof.
  apply required_not_tied_to_properties.
  - evaluate.
  - apply Forall_cons. split; [by exists "nickname" | by apply Forall_nil].
  - intros k x Hk. rewrite lookup_empty in Hk. discriminate Hk.
Defined.

Lemma time_schema_is_constraint :
  conforms platform PromptResponseConstraint
    (VObj "Object" (<["additionalProperties" := VBool false]> time_schema)) = true.
Proof. apply input_schema_is_constraint. evaluate. Defined.

Lemma answer_is_payload :
  accepts_call platform prompt [ VStr "It is noon." ] = true
  ∧ accepts_call platform promptStreaming [ VStr "It is noon." ] = true
  ∧ accepts_call platform measureInputUsage [ VStr "It is noon." ] = true.
Proof.
  destruct (response_is_payload platform) as [H _]. apply H. evaluate.
Defined.

Lemma seeded_bundle_prompts :
  Forall (λ p, accepts_call platform prompt [p] = true)
    [ VStr "You are a helpful assistant."; VArr [ hi_message ] ]
  ∧ ∀ c m, VObj c m ∉ [ VStr "You are a helpful assistant."; VArr [ hi_message ] ].
Proof.
  apply (initial_prompts_are_payloads platform "Object" seeded_bundle); evaluate.
Defined.

Lemma narrator_spoils_call :
  accepts_call platform prompt [ VArr [ hi_message; narrator_message ] ] = false.
Proof.
  apply (invalid_message_rejects_call platform prompt _ narrator_message).
  - apply list_elem_of_here.
  - apply list_elem_of_further, list_elem_of_here.
  - evaluate.
Defined.

Lemma image_given_as_text_rejected :
  conforms platform PromptMessageContent
    (VObj "Object" (list_to_map [ ("type", VStr "image"); ("value", VStr "cat.png") ]))
  = false.
Proof.
  apply (content_tag_value_mismatch platform _ _ "image" (VStr "cat.png")).
  - evaluate.
  - evaluate.
  - right. split; [discriminate|]. intros c m. discriminate.
Defined.

Lemma ready_window_capability :
  conforms platform Window ready_window = true
  ∧ ∃ lm, get ready_window "LanguageModel" = Some lm
      ∧ conforms platform LanguageModelType lm = true
      ∧ get lm "availability" = Some VFun
      ∧ get lm "create" = Some VFun.
Proof. apply example_window_refines. evaluate. Defined.

Lemma tools_example_rejected :
  ∃ a p, exampleWithTools rejecting_host
         = ([ Call "availability" []; Call "create" a; Call "prompt" p ], None).
Proof.
  destruct (examples_fail_only_on_rejection platform rejecting_host exampleWithTools)
    as (_ & _ & _ & H).
  - apply list_elem_of_here.
  - evaluate.
  - intros s [= <-]. evaluate.
  - apply H; [reflexivity | by eexists].
Defined.

Lemma constraints_example_throws :
  conforms platform Window (host_window bare_host) = true
  ∧ exampleWithConstraints bare_host = ([], None).
Proof.
  apply (examples_throw_without_capability platform).
  - apply list_elem_of_further, list_elem_of_here.
  - exists "Window", ∅. split; [reflexivity | evaluate].
Defined.

Lemma image_example_calls_well_typed :
  Forall (λ c, well_typed platform c = true)
    (exampleWithImage (ready_host (VObj "HTMLImageElement" ∅))).1.
Proof.
  destruct (example_calls_well_typed platform
              (ready_host (VObj "HTMLImageElement" ∅))) as (_ & _ & H).
  apply H. exists "HTMLImageElement", ∅. split; [reflexivity | evaluate].
Defined.

Lemma image_example_missing_element :
  Forall (λ call, ∀ args, call = Call "prompt" args →
                          well_typed platform call = false)
    (exampleWithImage (ready_host VNull)).1
  ∧ ∃ a p, (exampleWithImage (ready_host VNull)).1
           = [ Call "availability" []; Call "create" a; Call "prompt" p ].
Proof.
  destruct (image_example_unchecked_element platform (ready_host VNull))
    as [Hcalls Hmade]; [intros c m; discriminate|].
  split; [exact Hcalls|]. apply Hmade.
  - evaluate.
  - reflexivity.
  - exists ready_session. split; [reflexivity | evaluate].
Defined.
